(** * Hermes: silence detection over the audio track of a video

    A shallow embedding of [src/main.cpp]: the frame energy
    ([calculateEnergy]), the report line ([insertTimestamp]) and the
    decode loop of [main] with its single state variable
    [last_silent_time].

    C [double] is Rocq's primitive binary64 [float]; C [int], [int16_t] and
    [int64_t] are [Z] with their ranges written out; the output file is the
    [string] written so far.  Undefined behaviour of C++ (a read past the
    sample buffer, a conversion to [int] of a value that does not fit) is
    [None]. *)

From Stdlib Require Import ZArith List Bool Lia String Ascii Floats DecimalString Sorted.
From Stdlib Require Import Permutation.
Import ListNotations.

Set Warnings "-inexact-float".

Local Open Scope Z_scope.

(** ** The undefined-behaviour monad *)

Definition bind {A B : Type} (c : option A) (k : A -> option B) : option B :=
  match c with
  | Some a => k a
  | None => None
  end.

Notation "'do' x <- c ; k" := (bind c (fun x => k))
  (at level 10, x name, c at level 100, k at level 200).

(** ** The arithmetic of C that [main.cpp] relies on *)

Module C.

Definition INT_MIN : Z := - 2 ^ 31.
Definition INT_MAX : Z := 2 ^ 31 - 1.

Definition in_int (z : Z) : bool := (INT_MIN <=? z) && (z <=? INT_MAX).

(** [a * b] on [int]: signed overflow is undefined. *)
Definition int_mul (a b : Z) : option Z :=
  if in_int (a * b) then Some (a * b) else None.

(** Conversion of an integer to [double], to nearest even. *)
Definition Z2double (z : Z) : float :=
  SF2Prim (binary_normalize prec emax z 0 false).

(** The integer a finite [double] truncates to (toward zero). *)
Definition truncate (x : float) : option Z :=
  match Prim2SF x with
  | S754_zero _ => Some 0
  | S754_finite s m e => Some (cond_Zopp s (Z.shiftl (Zpos m) e))
  | S754_infinity _ | S754_nan => None
  end.

(** Conversion of a [double] to [int]: the truncated value when [int]
    holds it, undefined otherwise. *)
Definition double_to_int (x : float) : option Z :=
  do z <- truncate x;
  if in_int z then Some z else None.

(** [floor] of <math.h> on [double]. *)
Definition floor (x : float) : float :=
  match Prim2SF x with
  | S754_finite s m e =>
      if 0 <=? e then x
      else Z2double (Z.shiftl (cond_Zopp s (Zpos m)) e)
  | _ => x
  end.

(** C [float] (binary32) values: [spec_float]s of precision 24. *)
Definition float32 : Type := spec_float.

Definition int_to_float (z : Z) : float32 := binary_normalize 24 128 z 0 false.

Definition mulf (x y : float32) : float32 := SFmul 24 128 x y.

(** Widening of a [float] to [double]; it is exact. *)
Definition float_to_double (f : float32) : float :=
  match f with
  | S754_finite s m e =>
      SF2Prim (binary_normalize prec emax (cond_Zopp s (Zpos m)) e false)
  | _ => SF2Prim f
  end.

(** The literal [60.0f]. *)
Definition sixty_f : float32 := int_to_float 60.

(** [operator<<] of an [int] on a stream with default flags. *)
Definition show_int (z : Z) : string := NilZero.string_of_int (Z.to_int z).

(** [std::endl]. *)
Definition endl : string := String "010"%char EmptyString.

End C.

(** ** Configuration (main.cpp, lines 29-35) *)

Definition THRESHOLD : float := 0.265%float.

(** ** calculateEnergy (main.cpp, lines 43-52) *)

(** The [for] loop: [n] iterations are left, [i] is the index read next and
    [energy] the sum so far. *)
Fixpoint energy_loop (samples : list Z) (n : nat) (i : nat) (energy : float)
  : option float :=
  match n with
  | O => Some energy
  | S n' =>
      do s <- nth_error samples i;
      let sample := (C.Z2double s / 32768)%float in
      energy_loop samples n' (S i) (energy + sample * sample)%float
  end.

Definition calculateEnergy (samples : list Z) (sample_count : Z) : option float :=
  do energy <- energy_loop samples (Z.to_nat sample_count) 0 0%float;
  Some (energy / C.Z2double sample_count)%float.

(** ** insertTimestamp (main.cpp, lines 61-70) *)

(** The four [int] locals of lines 62-66. *)
Record fields : Type := Fields {
  start_minutes : Z;
  start_seconds : Z;
  end_minutes : Z;
  end_seconds : Z
}.

(** The remainder expression [t - (minutes * 60.0f)]: the product is a
    [float] product, widened for the subtraction. *)
Definition remainder (t : float) (minutes : Z) : float :=
  (t - C.float_to_double (C.mulf (C.int_to_float minutes) C.sixty_f))%float.

Definition split_timestamp (start_time end_time : float) : option fields :=
  do start_minutes <- C.double_to_int (C.floor (start_time / 60));
  do start_seconds <- C.double_to_int (remainder start_time start_minutes);
  do end_minutes <- C.double_to_int (C.floor (end_time / 60));
  do end_seconds <- C.double_to_int (remainder end_time start_minutes);
  Some (Fields start_minutes start_seconds end_minutes end_seconds).

(** Lines 68-69: what is written to the stream. *)
Definition render (f : fields) : string :=
  ("Silent time: " ++ C.show_int (start_minutes f) ++ "m"
     ++ C.show_int (start_seconds f) ++ "s - "
     ++ C.show_int (end_minutes f) ++ "m"
     ++ C.show_int (end_seconds f) ++ "s" ++ C.endl)%string.

(** The text [insertTimestamp] appends to [output_file]. *)
Definition insertTimestamp (start_time end_time : float) : option string :=
  do f <- split_timestamp start_time end_time;
  Some (render f).

(** ** main (main.cpp, lines 72-190) *)

(** What the decoder hands to the loop: FFmpeg's [AVRational] and the fields
    of [AVFrame], [AVStream] and [AVCodecContext] that [main] reads. *)
Record AVRational : Type := { num : Z; den : Z }.

(** FFmpeg's [av_q2d]: [num / (double) den]. *)
Definition av_q2d (a : AVRational) : float :=
  (C.Z2double (num a) / C.Z2double (den a))%float.

Record AVFrame : Type := {
  pts : Z;               (* frame->pts, int64_t *)
  nb_samples : Z;        (* frame->nb_samples *)
  nb_channels : Z;       (* frame->ch_layout.nb_channels *)
  data0 : list Z         (* frame->data[0] read as int16_t *)
}.

Record media : Type := {
  time_base : AVRational;        (* streams[audio_stream_index]->time_base *)
  duration : Z;                  (* streams[audio_stream_index]->duration *)
  ticks_per_frame : Z;           (* codec_context->ticks_per_frame *)
  codec_time_base_den : Z;       (* codec_context->time_base.den *)
  frames : list AVFrame          (* the frames avcodec_receive_frame returns *)
}.

(** Lines 157 and 160: the time of a frame in seconds. *)
Definition frame_time (frame_rate : float) (frame : AVFrame) : float :=
  (C.Z2double (pts frame) * frame_rate)%float.

(** Lines 174-177: the end time used for a trailing interval. *)
Definition stream_end_time (m : media) : float :=
  (C.Z2double (duration m) * C.Z2double (ticks_per_frame m)
     / C.Z2double (codec_time_base_den m))%float.

(** Lines 151-164: one decoded frame; the state is [last_silent_time] and
    the text written to [output_file] so far. *)
Definition loop_body (frame_rate : float) (st : float * string) (frame : AVFrame)
  : option (float * string) :=
  let '(last_silent_time, output_file) := st in
  do sample_count <- C.int_mul (nb_samples frame) (nb_channels frame);
  do energy <- calculateEnergy (data0 frame) sample_count;
  if (energy <=? THRESHOLD)%float then
    if (last_silent_time =? -1)%float
    then Some (frame_time frame_rate frame, output_file)
    else Some (last_silent_time, output_file)
  else if negb (last_silent_time =? -1)%float then
    let end_time := frame_time frame_rate frame in
    do line <- insertTimestamp last_silent_time end_time;
    Some ((-1)%float, (output_file ++ line)%string)
  else Some (last_silent_time, output_file).

Fixpoint main_loop (frame_rate : float) (st : float * string) (fs : list AVFrame)
  : option (float * string) :=
  match fs with
  | [] => Some st
  | frame :: rest =>
      do st' <- loop_body frame_rate st frame;
      main_loop frame_rate st' rest
  end.

(** The content of the output file when [main] returns. *)
Definition main (m : media) : option string :=
  let frame_rate := av_q2d (time_base m) in
  let last_silent_time := (-1)%float in
  do st <- main_loop frame_rate (last_silent_time, EmptyString) (frames m);
  let '(last_silent_time, output_file) := st in
  if negb (last_silent_time =? -1)%float then
    do line <- insertTimestamp last_silent_time (stream_end_time m);
    Some (output_file ++ line)%string
  else Some output_file.

(** ** The tracker read off the loop

    The loop of [main] is a tracker whose whole state is [last_silent_time]:
    [observe] is lines 155-164 and [flush] lines 173-180, with each call of
    [insertTimestamp] recorded as the pair of times it is given. *)

Definition interval : Type := (float * float)%type.

Definition is_silent (energy : float) : bool := (energy <=? THRESHOLD)%float.

Definition observe (last_silent_time timestamp energy : float)
  : float * option interval :=
  if is_silent energy then
    if (last_silent_time =? -1)%float
    then (timestamp, None)
    else (last_silent_time, None)
  else if negb (last_silent_time =? -1)%float then
    ((-1)%float, Some (last_silent_time, timestamp))
  else (last_silent_time, None).

(** Lines 173-180 assign nothing to [last_silent_time]. *)
Definition flush (last_silent_time end_time : float) : float * option interval :=
  if negb (last_silent_time =? -1)%float
  then (last_silent_time, Some (last_silent_time, end_time))
  else (last_silent_time, None).

Definition emitted (o : option interval) : list interval :=
  match o with
  | Some iv => [iv]
  | None => []
  end.

(** Feeding (timestamp, energy) pairs in order: the final state and the
    intervals emitted, in emission order. *)
Fixpoint run (last_silent_time : float) (feed : list (float * float))
  : float * list interval :=
  match feed with
  | [] => (last_silent_time, [])
  | (timestamp, energy) :: rest =>
      let '(last', out) := observe last_silent_time timestamp energy in
      let '(final, outs) := run last' rest in
      (final, emitted out ++ outs)
  end.

(** A whole stream: every frame observed from the initial state, then one
    flush. *)
Definition track (feed : list (float * float)) (end_time : float) : list interval :=
  let '(last, outs) := run (-1)%float feed in
  outs ++ emitted (snd (flush last end_time)).

(** The two states of the specification, as [last_silent_time] encodes them. *)
Inductive TrackerState : Type :=
| NoOpenInterval
| OpenInterval (start : float).

Definition state_of (last_silent_time : float) : TrackerState :=
  if (last_silent_time =? -1)%float then NoOpenInterval
  else OpenInterval last_silent_time.

(** The number of maximal runs of consecutive silent frames; [prev] tells
    whether the frame before the list was silent. *)
Fixpoint silent_runs (prev : bool) (silent : list bool) : nat :=
  match silent with
  | [] => O
  | s :: rest => ((if s && negb prev then 1 else 0) + silent_runs s rest)%nat
  end.

(** ** Vocabulary of the claims about whole streams *)

(** Timestamps strictly increasing, by the comparison of doubles. *)
Fixpoint strictly_increasing (ts : list float) : bool :=
  match ts with
  | a :: (b :: _) as rest => (a <? b)%float && strictly_increasing rest
  | _ => true
  end.

(** No timestamp is the value -1 that encodes "no open interval". *)
Definition no_sentinel (ts : list float) : bool :=
  forallb (fun t => negb (t =? -1)%float) ts.

(** The end of the stream is not before the last frame. *)
Definition ends_after (ts : list float) (end_time : float) : bool :=
  match ts with
  | [] => true
  | _ :: _ => (last ts end_time <=? end_time)%float
  end.

(** The end points of a list of intervals, in order. *)
Definition endpoints (ivs : list interval) : list float :=
  flat_map (fun iv => [fst iv; snd iv]) ivs.

(** [subseq l1 l2]: [l1] is [l2] with some elements left out. *)
Inductive subseq {A : Type} : list A -> list A -> Prop :=
| subseq_nil : subseq [] []
| subseq_skip x l1 l2 : subseq l1 l2 -> subseq l1 (x :: l2)
| subseq_keep x l1 l2 : subseq l1 l2 -> subseq (x :: l1) (x :: l2).

Definition le_time (a b : float) : Prop := (a <=? b)%float = true.

(** Whether [last_silent_time] holds the start of an open interval, and the
    end point still owed for it. *)
Definition is_open (last_silent_time : float) : bool :=
  negb (last_silent_time =? -1)%float.

Definition pending (last_silent_time : float) : list float :=
  if is_open last_silent_time then [last_silent_time] else [].

Definition owed (last_silent_time : float) : nat :=
  if is_open last_silent_time then 1 else 0.

(** What [main] feeds the tracker: the time and the energy of each frame. *)
Definition observation (frame_rate : float) (frame : AVFrame) : option (float * float) :=
  do sample_count <- C.int_mul (nb_samples frame) (nb_channels frame);
  do energy <- calculateEnergy (data0 frame) sample_count;
  Some (frame_time frame_rate frame, energy).

Fixpoint observations (frame_rate : float) (fs : list AVFrame)
  : option (list (float * float)) :=
  match fs with
  | [] => Some []
  | frame :: rest =>
      do o <- observation frame_rate frame;
      do os <- observations frame_rate rest;
      Some (o :: os)
  end.

(** The lines for a list of intervals, one call of [insertTimestamp] each,
    in order. *)
Fixpoint report (ivs : list interval) : option string :=
  match ivs with
  | [] => Some EmptyString
  | (start_time, end_time) :: rest =>
      do line <- insertTimestamp start_time end_time;
      do lines <- report rest;
      Some (line ++ lines)%string
  end.

(** The [int] fields of each interval, in order. *)
Fixpoint report_fields (ivs : list interval) : option (list fields) :=
  match ivs with
  | [] => Some []
  | (start_time, end_time) :: rest =>
      do f <- split_timestamp start_time end_time;
      do fs <- report_fields rest;
      Some (f :: fs)
  end.

(** The energy as the specification words it: the mean over all the samples
    of the squares of [sample / 32768.0], summed in index order. *)
Definition square_normalized (s : Z) : float :=
  ((C.Z2double s / 32768) * (C.Z2double s / 32768))%float.

Definition mean_square (samples : list Z) : float :=
  (fold_left (fun acc s => acc + square_normalized s) samples 0
   / C.Z2double (Z.of_nat (List.length samples)))%float.

(** ** Vocabulary of the further properties *)

(** The intervals of a feed observed from the state [last_silent_time] and
    then flushed. *)
Definition track_from (last_silent_time : float) (feed : list (float * float))
  (end_time : float) : list interval :=
  snd (run last_silent_time feed)
  ++ emitted (snd (flush (fst (run last_silent_time feed)) end_time)).

(** [covers iv t]: the time [t] is in the interval, its end excluded. *)
Definition covers (iv : interval) (t : float) : bool :=
  (fst iv <=? t)%float && (t <? snd iv)%float.

Definition lt_time (a b : float) : Prop := (a <? b)%float = true.

(** ** The rest of main: set-up and the packet loop (lines 72-171)

    The calls into FFmpeg are represented by what they return.  The text
    sent to [std::cout] is kept only for the failure messages. *)

(** FFmpeg's [enum AVMediaType]. *)
Inductive AVMediaType : Type :=
| AVMEDIA_TYPE_UNKNOWN
| AVMEDIA_TYPE_VIDEO
| AVMEDIA_TYPE_AUDIO
| AVMEDIA_TYPE_DATA
| AVMEDIA_TYPE_SUBTITLE
| AVMEDIA_TYPE_ATTACHMENT.

Definition is_audio (t : AVMediaType) : bool :=
  match t with
  | AVMEDIA_TYPE_AUDIO => true
  | _ => false
  end.

(** The conversion of the [unsigned int] loop index to [int] (line 91). *)
Definition unsigned_to_int (i : Z) : Z :=
  if i <=? C.INT_MAX then i else i - 2 ^ 32.

(** Lines 88-94: the loop over the streams, [i] being the index of the head
    of [types]. *)
Fixpoint find_audio_from (types : list AVMediaType) (i : Z) : Z :=
  match types with
  | [] => -1
  | t :: rest =>
      if is_audio t then unsigned_to_int i
      else find_audio_from rest (i + 1)
  end.

Definition find_audio_stream (types : list AVMediaType) : Z :=
  find_audio_from types 0.

(** The two error codes of FFmpeg that the loop names; their values come
    from FFmpeg's headers and the platform's <errno.h>. *)
Record averrors : Type := {
  AVERROR_EAGAIN : Z;
  AVERROR_EOF : Z
}.

(** A packet read by [av_read_frame], with what the decoder answers: the
    result of [avcodec_send_packet] and the results of the successive calls
    of [avcodec_receive_frame], each with the frame it fills. *)
Record AVPacket : Type := {
  stream_index : Z;
  send_result : Z;
  received : list (Z * AVFrame)
}.

(** Lines 144-166: the inner loop, entered with [ret >= 0]. *)
Fixpoint receive_loop (E : averrors) (frame_rate : float) (st : float * string)
  (results : list (Z * AVFrame)) : option (float * string) :=
  match results with
  | [] => Some st
  | (ret, frame) :: rest =>
      if (ret =? AVERROR_EAGAIN E) || (ret =? AVERROR_EOF E) then Some st
      else if 0 <=? ret then
        do st' <- loop_body frame_rate st frame;
        receive_loop E frame_rate st' rest
      else Some st
  end.

(** Lines 135-171: the loop over the packets; a failing
    [avcodec_send_packet] leaves it. *)
Fixpoint packet_loop (E : averrors) (audio_stream_index : Z) (frame_rate : float)
  (st : float * string) (packets : list AVPacket) : option (float * string) :=
  match packets with
  | [] => Some st
  | packet :: rest =>
      if stream_index packet =? audio_stream_index then
        let ret := send_result packet in
        if (ret <? 0) || (ret =? AVERROR_EAGAIN E) || (ret =? AVERROR_EOF E)
        then Some st
        else
          do st' <- receive_loop E frame_rate st (received packet);
          packet_loop E audio_stream_index frame_rate st' rest
      else packet_loop E audio_stream_index frame_rate st rest
  end.

(** The frames of a packet that reach the analysis: those returned before
    the first negative result. *)
Fixpoint accepted (results : list (Z * AVFrame)) : list AVFrame :=
  match results with
  | [] => []
  | (ret, frame) :: rest =>
      if 0 <=? ret then frame :: accepted rest else []
  end.

(** The frames of a stream that reach the analysis: those of its packets,
    in order, up to the first packet the decoder refuses. *)
Fixpoint decoded_frames (audio_stream_index : Z) (packets : list AVPacket)
  : list AVFrame :=
  match packets with
  | [] => []
  | packet :: rest =>
      if stream_index packet =? audio_stream_index then
        if send_result packet <? 0 then []
        else accepted (received packet) ++ decoded_frames audio_stream_index rest
      else decoded_frames audio_stream_index rest
  end.

Record AVStream : Type := {
  codec_type : AVMediaType;      (* codecpar->codec_type *)
  stream_time_base : AVRational; (* time_base *)
  stream_duration : Z            (* duration *)
}.

(** The file [VIDEO_PATH] as [main] sees it. *)
Record video : Type := {
  open_input_ok : bool;          (* avformat_open_input(...) == 0 *)
  stream_info_ok : bool;         (* avformat_find_stream_info(...) >= 0 *)
  streams : list AVStream;       (* format_context->streams *)
  codec_open_ok : bool;          (* avcodec_open2(...) >= 0 *)
  codec_ticks_per_frame : Z;     (* codec_context->ticks_per_frame *)
  codec_den : Z;                 (* codec_context->time_base.den *)
  output_open_ok : bool;         (* output_file.is_open() *)
  packets : list AVPacket        (* what av_read_frame delivers *)
}.

(** How [main] ends: [return -1] after a message, or [return 0] with the
    content of the output file. *)
Inductive outcome : Type :=
| Failed (message : string)
| Saved (content : string).

(** The whole of [main]. *)
Definition program (E : averrors) (v : video) : option outcome :=
  if negb (open_input_ok v) then Some (Failed "Failed to open video file.")
  else if negb (stream_info_ok v)
  then Some (Failed "Failed to retrieve stream information.")
  else
    let audio_stream_index := find_audio_stream (map codec_type (streams v)) in
    if audio_stream_index =? -1
    then Some (Failed "No audio stream found in the video file.")
    else
      do stream <- (if audio_stream_index <? 0 then None
                    else nth_error (streams v) (Z.to_nat audio_stream_index));
      if negb (codec_open_ok v)
      then Some (Failed "Failed to open the audio codec.")
      else if negb (output_open_ok v)
      then Some (Failed "Failed to open the output file.")
      else
      let frame_rate := av_q2d (stream_time_base stream) in
      let last_silent_time := (-1)%float in
      do st <- packet_loop E audio_stream_index frame_rate
                 (last_silent_time, EmptyString) (packets v);
      let '(last_silent_time, output_file) := st in
      if negb (last_silent_time =? -1)%float then
        let end_time :=
          (C.Z2double (stream_duration stream)
           * C.Z2double (codec_ticks_per_frame v)
           / C.Z2double (codec_den v))%float in
        do line <- insertTimestamp last_silent_time end_time;
        Some (Saved (output_file ++ line))
      else Some (Saved output_file).

(** The stream [main] analyses, as the [media] of the sections above. *)
Definition media_of (v : video) (audio_stream_index : Z) (stream : AVStream)
  : media :=
  {| time_base := stream_time_base stream;
     duration := stream_duration stream;
     ticks_per_frame := codec_ticks_per_frame v;
     codec_time_base_den := codec_den v;
     frames := decoded_frames audio_stream_index (packets v) |}.

(** ** Dyadic numbers as doubles *)

(** [shl V k]: the positive [V] shifted left by [k] bits ([k <= 0]: [V]). *)
Definition shl (V : positive) (k : Z) : positive :=
  match k with
  | Zpos p => Pos.iter xO V p
  | _ => V
  end.

(** The double nearest to [A * 2^e]. *)
Definition dyadic (A e : Z) : float :=
  SF2Prim (binary_normalize prec emax A e false).

(** The sum of the squares of the samples, as an integer. *)
Definition sum_squares (samples : list Z) : Z :=
  fold_right (fun s acc => s * s + acc) 0 samples.

Definition int16 (s : Z) : Prop := -32768 <= s <= 32767.

(** [all_from check i n]: [check] holds at [i], [i + 1], ..., [i + n - 1]. *)
Fixpoint all_from (check : Z -> bool) (i : Z) (n : nat) : bool :=
  match n with
  | O => true
  | S k => if check i then all_from check (i + 1) k else false
  end.

(** Whether the double [x] lies in [[q, q + 1)]. *)
Definition between (q x : float) : bool :=
  ((q <=? x) && (x <? q + 1))%float.

(** Whether the quotient by 60 of each of the [n] doubles [t], [t + 1], ...
    lies in [[q, q + 1)]. *)
Fixpoint minute_loop (t q : float) (n : nat) : bool :=
  match n with
  | O => true
  | S k => between q (t / 60) && minute_loop (t + 1) q k
  end.

(** The same for the 60 seconds of each of the [n] minutes [q], [q + 1],
    ...; [t] is the first second of the minute [q]. *)
Fixpoint minutes_loop (t q : float) (n : nat) : bool :=
  match n with
  | O => true
  | S k => minute_loop t q 60 && minutes_loop (t + 60) (q + 1) k
  end.

(** Whether the [float] product [minutes * 60.0f] is exact. *)
Definition product_exact (minutes : Z) : bool :=
  PrimFloat.Leibniz.eqb
    (C.float_to_double (C.mulf (C.int_to_float minutes) C.sixty_f))
    (C.Z2double (minutes * 60)).

(** The error codes on Linux: [AVERROR(EAGAIN)] is [-11] and [AVERROR_EOF]
    is [-MKTAG('E','O','F',' ')]. *)
Definition linux_errors : averrors :=
  {| AVERROR_EAGAIN := -11; AVERROR_EOF := -541478725 |}.

(** A file with a video stream and two audio streams, for the examples: the
    first audio stream is silent at pts 0 and loud at pts 1. *)
Definition sample_video : video :=
  {| open_input_ok := true;
     stream_info_ok := true;
     streams := [ {| codec_type := AVMEDIA_TYPE_VIDEO;
                     stream_time_base := {| num := 1; den := 25 |};
                     stream_duration := 50 |};
                  {| codec_type := AVMEDIA_TYPE_AUDIO;
                     stream_time_base := {| num := 1; den := 1 |};
                     stream_duration := 2 |};
                  {| codec_type := AVMEDIA_TYPE_AUDIO;
                     stream_time_base := {| num := 1; den := 2 |};
                     stream_duration := 4 |} ];
     codec_open_ok := true;
     codec_ticks_per_frame := 1;
     codec_den := 1;
     output_open_ok := true;
     packets :=
       [ {| stream_index := 0; send_result := 0; received := [] |};
         {| stream_index := 1; send_result := 0;
            received := [ (0, {| pts := 0; nb_samples := 2; nb_channels := 1;
                                 data0 := [0; 0] |});
                          (-11, {| pts := 0; nb_samples := 0; nb_channels := 0;
                                   data0 := [] |}) ] |};
         {| stream_index := 2; send_result := 0;
            received := [ (0, {| pts := 0; nb_samples := 1; nb_channels := 1;
                                 data0 := [32767] |}) ] |};
         {| stream_index := 1; send_result := 0;
            received := [ (0, {| pts := 1; nb_samples := 2; nb_channels := 1;
                                 data0 := [32767; -32768] |});
                          (-11, {| pts := 0; nb_samples := 0; nb_channels := 0;
                                   data0 := [] |}) ] |} ] |}.

(** * Facts about binary64 used below *)

Module FloatFacts.

Ltac std_Z :=
  change IntDef.Z.max with Z.max in *;
  change IntDef.Z.min with Z.min in *;
  change IntDef.Z.add with Z.add in *;
  change IntDef.Z.sub with Z.sub in *;
  change IntDef.Z.mul with Z.mul in *;
  change IntDef.Z.opp with Z.opp in *;
  change IntDef.Z.leb with Z.leb in *;
  change IntDef.Z.eqb with Z.eqb in *;
  change IntDef.Z.compare with Z.compare in *;
  change (@PosDef.Pos.iter) with (@Pos.iter) in *.

Ltac cmp_cases :=
  repeat match goal with
  | |- context [ (?a ?= ?b)%Z ] => destruct (Z.compare_spec a b)
  | |- context [ Pos.compare_cont Eq ?a ?b ] =>
      change (Pos.compare_cont Eq a b) with (Pos.compare a b);
      destruct (Pos.compare_spec a b)
  | H : context [ (?a ?= ?b)%Z ] |- _ => destruct (Z.compare_spec a b)
  | H : context [ Pos.compare_cont Eq ?a ?b ] |- _ =>
      change (Pos.compare_cont Eq a b) with (Pos.compare a b) in H;
      destruct (Pos.compare_spec a b)
  end.

(** The order of [<=] on doubles is transitive (a NaN is below and above
    nothing). *)
Lemma SFleb_trans x y z :
  SFleb x y = true -> SFleb y z = true -> SFleb x z = true.
Proof.
  unfold SFleb.
  destruct x as [sx|sx| |sx mx ex], y as [sy|sy| |sy my ey],
           z as [sz|sz| |sz mz ez];
    simpl; try discriminate; try reflexivity;
    repeat match goal with s : bool |- _ => destruct s end;
    simpl; try discriminate; try reflexivity;
    cmp_cases; simpl; intros; subst;
    try discriminate; try reflexivity; try lia.
Qed.

Lemma leb_trans (x y z : float) :
  (x <=? y)%float = true -> (y <=? z)%float = true -> (x <=? z)%float = true.
Proof. rewrite !leb_spec. apply SFleb_trans. Qed.

Lemma ltb_leb (x y : float) :
  (x <? y)%float = true -> (x <=? y)%float = true.
Proof.
  rewrite ltb_spec, leb_spec. unfold SFltb, SFleb.
  destruct (SFcompare (Prim2SF x) (Prim2SF y)) as [[]|]; congruence.
Qed.

(** Integers below 2^53 convert to a non-zero finite double. *)
Lemma digits2_pos_iter_xO p d :
  digits2_pos (Pos.iter xO p d) = (digits2_pos p + d)%positive.
Proof.
  induction d as [|d IH] using Pos.peano_ind.
  - simpl. lia.
  - rewrite Pos.iter_succ. simpl. rewrite IH. lia.
Qed.

Lemma digits2_pos_le p :
  forall k, 0 <= k -> Zpos p < 2 ^ k -> Zpos (digits2_pos p) <= k.
Proof.
  induction p as [p IH|p IH|]; intros k Hk Hp;
    (assert (k <> 0) by (intros ->; simpl in Hp; lia));
    [ | | simpl; lia ];
    replace k with (Z.succ (k - 1)) in Hp by lia;
    rewrite Z.pow_succ_r in Hp by lia;
    specialize (IH (k - 1)); simpl; lia.
Qed.

Lemma Prim2SF_Z2double n :
  0 <= n < 2 ^ 63 ->
  Prim2SF (C.Z2double n) = binary_normalize prec emax n 0 false.
Proof.
  intros Hn.
  assert (Hz : Uint63.to_Z (Uint63.of_Z n) = n).
  { rewrite Uint63.of_Z_spec. apply Z.mod_small.
    change Uint63.wB with (2 ^ 63). lia. }
  assert (E : binary_normalize prec emax n 0 false
              = Prim2SF (of_uint63 (Uint63.of_Z n))).
  { rewrite of_uint63_spec, Hz. reflexivity. }
  unfold C.Z2double. rewrite E, SF2Prim_Prim2SF. reflexivity.
Qed.

Lemma fexp_normal k : -1021 <= k -> fexp prec emax k = k - 53.
Proof.
  intros Hk. unfold fexp, SpecFloat.emin, prec, emax. std_Z. lia.
Qed.

Lemma shr_fexp_canonical mz ez :
  Zpos (digits2_pos mz) = 53 -> -1074 <= ez ->
  shr_fexp prec emax (Zpos mz) ez loc_Exact
  = ({| shr_m := Zpos mz; shr_r := false; shr_s := false |}, ez).
Proof.
  intros Hmz Hez. unfold shr_fexp, fexp, SpecFloat.emin, prec, emax.
  cbn [Zdigits2]. rewrite Hmz. std_Z.
  rewrite Z.max_l by lia.
  replace (53 + ez - 53 - ez) with 0 by lia. reflexivity.
Qed.

Lemma binary_round_aux_canonical s mz ez :
  Zpos (digits2_pos mz) = 53 -> -1074 <= ez <= 971 ->
  binary_round_aux prec emax s (Zpos mz) ez loc_Exact = S754_finite s mz ez.
Proof.
  intros Hmz Hez. unfold binary_round_aux.
  rewrite shr_fexp_canonical by lia.
  cbn [shr_m loc_of_shr_record round_nearest_even].
  rewrite shr_fexp_canonical by lia.
  cbn [shr_m]. unfold prec, emax. std_Z.
  destruct (Z.leb_spec ez (1024 - 53)); [reflexivity | lia].
Qed.

Lemma binary_round_small s p :
  Zpos p < 2 ^ 53 ->
  exists m e, binary_round prec emax s p 0 = S754_finite s m e.
Proof.
  intros Hp.
  pose proof (digits2_pos_le p 53 ltac:(lia) Hp) as Hd.
  unfold binary_round, shl_align.
  std_Z. rewrite Z.add_0_r, fexp_normal, Z.sub_0_r by lia.
  set (d := digits2_pos p) in *.
  destruct (Zpos d - 53) as [|q|q] eqn:E.
  - eexists _, _. apply binary_round_aux_canonical; fold d; lia.
  - lia.
  - eexists _, _. apply binary_round_aux_canonical; [|lia].
    rewrite digits2_pos_iter_xO. fold d. lia.
Qed.

Lemma Z2double_positive n :
  0 < n < 2 ^ 53 ->
  exists m e, Prim2SF (C.Z2double n) = S754_finite false m e.
Proof.
  intros Hn. rewrite Prim2SF_Z2double by lia.
  destruct n as [|p|p]; try lia.
  simpl. apply binary_round_small. lia.
Qed.

Lemma zero_div_Z2double n :
  0 < n < 2 ^ 53 -> (0 / C.Z2double n)%float = 0%float.
Proof.
  intros Hn. destruct (Z2double_positive n Hn) as (m & e & H).
  apply Prim2SF_inj. rewrite div_spec, H. reflexivity.
Qed.

End FloatFacts.

(** * The tracker: transitions, flush and the sentinel *)

Module Tracker.

Lemma state_of_sentinel : state_of (-1)%float = NoOpenInterval.
Proof. reflexivity. Qed.

Lemma state_of_open last :
  (last =? -1)%float = false -> state_of last = OpenInterval last.
Proof. unfold state_of. intros ->. reflexivity. Qed.

Lemma state_of_closed last :
  (last =? -1)%float = true -> state_of last = NoOpenInterval.
Proof. unfold state_of. intros ->. reflexivity. Qed.

(** C1, as the code has it: one call of [observe] is a transition of the
    two-state machine.  With no interval open a silent frame stores its
    timestamp as the start and emits nothing, which opens an interval
    unless the timestamp is -1, the value that encodes "no interval"; a
    silent frame leaves an open interval and its start as they are; a
    frame that is not silent closes an open interval as (start, timestamp),
    emits it and returns to no interval; otherwise nothing changes and
    nothing is emitted. *)
Theorem observe_transitions (last timestamp energy : float) :
  let '(last', out) := observe last timestamp energy in
  match state_of last, is_silent energy with
  | NoOpenInterval, true =>
      last' = timestamp /\ out = None /\
      state_of last' = (if (timestamp =? -1)%float then NoOpenInterval
                        else OpenInterval timestamp)
  | OpenInterval start, true =>
      state_of last' = OpenInterval start /\ out = None
  | OpenInterval start, false =>
      state_of last' = NoOpenInterval /\ out = Some (start, timestamp)
  | NoOpenInterval, false =>
      state_of last' = NoOpenInterval /\ out = None
  end.
Proof.
  unfold observe, state_of.
  destruct (is_silent energy), (last =? -1)%float eqn:E; cbn [negb];
    rewrite ?E; repeat split; reflexivity.
Qed.

(** C1 as stated fails: with no interval open, a silent frame whose
    timestamp is -1 does not move the tracker to an open interval. *)
Lemma observe_sentinel_timestamp :
  state_of (-1)%float = NoOpenInterval /\
  is_silent 0.1%float = true /\
  state_of (fst (observe (-1) (-1) 0.1)%float) = NoOpenInterval /\
  state_of (fst (observe (-1) (-1) 0.1)%float) <> OpenInterval (-1)%float.
Proof. repeat split; try reflexivity. discriminate. Qed.

(** C3, as the code has it: [flush] emits (start, end of stream) when an
    interval is open and nothing otherwise, and leaves the state variable
    as it is.  In the trailing-silence scenario the three frames emit
    nothing and the flush at 3.0 emits (1.0, 3.0). *)
Theorem flush_emits :
  (forall last end_time : float,
      flush last end_time
      = (last, match state_of last with
               | OpenInterval start => Some (start, end_time)
               | NoOpenInterval => None
               end)) /\
  (let feed := [(0, 0.9); (1, 0.1); (2, 0.05)]%float in
   run (-1)%float feed = (1%float, []) /\
   flush 1 3 = (1%float, Some (1, 3)%float) /\
   track feed 3 = [(1, 3)%float]).
Proof.
  split.
  - intros last end_time. unfold flush, state_of.
    destruct (last =? -1)%float; reflexivity.
  - repeat split; reflexivity.
Qed.

(** C3 as stated fails: after a flush that emitted the open interval the
    state is still that open interval, not [NoOpenInterval]. *)
Lemma flush_keeps_state :
  state_of 1%float = OpenInterval 1%float /\
  snd (flush 1 3) = Some (1, 3)%float /\
  state_of (fst (flush 1 3)) = OpenInterval 1%float.
Proof. repeat split; reflexivity. Qed.

(** C5: a frame is silent exactly when its energy is at most [THRESHOLD],
    the double nearest to 0.265, and an energy equal to the threshold is
    silent (the smallest double above it is not); the loop of [main]
    branches on this test. *)
Theorem threshold_inclusive :
  THRESHOLD = (C.Z2double 265 / C.Z2double 1000)%float /\
  (forall energy, is_silent energy = (energy <=? THRESHOLD)%float) /\
  is_silent THRESHOLD = true /\
  is_silent (next_up THRESHOLD) = false /\
  (forall last timestamp,
      observe last timestamp THRESHOLD
      = (if (last =? -1)%float then timestamp else last, None)).
Proof.
  repeat split; try reflexivity.
  intros last timestamp. unfold observe.
  change (is_silent THRESHOLD) with true. cbn iota.
  destruct (last =? -1)%float; reflexivity.
Qed.

(** C10: "no open interval" is the start time -1, so a silent frame at
    -1 second leaves the tracker with no interval open; the silent run it
    begins is dropped when the next frame is loud, and reported from the
    next silent frame's timestamp otherwise. *)
Theorem sentinel_timestamp_lost :
  state_of (-1)%float = NoOpenInterval /\
  (forall energy, is_silent energy = true ->
      observe (-1) (-1) energy = ((-1)%float, None)) /\
  track [(-1, 0.1); (0, 0.9)]%float 1 = [] /\
  track [(-1, 0.1); (0, 0.1); (1, 0.9)]%float 2 = [(0, 1)%float] /\
  main {| time_base := {| num := 1; den := 1 |}; duration := 2;
          ticks_per_frame := 1; codec_time_base_den := 1;
          frames := [ {| pts := -1; nb_samples := 2; nb_channels := 1;
                         data0 := [0; 0] |};
                      {| pts := 0; nb_samples := 2; nb_channels := 1;
                         data0 := [32767; -32768] |} ] |}
  = Some EmptyString.
Proof.
  repeat split; try reflexivity.
  intros energy H. unfold observe. rewrite H. reflexivity.
Qed.

End Tracker.

(** * Whole streams: the intervals a feed produces *)

Module Intervals.

Import FloatFacts.

(** ** Subsequences and sortedness *)

Lemma subseq_refl {A} (l : list A) : subseq l l.
Proof. induction l; constructor; assumption. Qed.

Lemma subseq_nil_l {A} (l : list A) : subseq [] l.
Proof. induction l; constructor; assumption. Qed.

Lemma subseq_insert_second {A} (x y : A) l1 l2 :
  subseq l1 (x :: l2) -> subseq l1 (x :: y :: l2).
Proof.
  intros H. inversion H; subst.
  - apply subseq_skip, subseq_skip. assumption.
  - apply subseq_keep, subseq_skip. assumption.
Qed.

Lemma subseq_snoc {A} (x : A) l1 l2 :
  subseq l1 l2 -> subseq (l1 ++ [x]) (l2 ++ [x]).
Proof.
  induction 1; simpl.
  - apply subseq_keep, subseq_nil.
  - apply subseq_skip. assumption.
  - apply subseq_keep. assumption.
Qed.

Lemma subseq_app_r {A} (l1 l2 l3 : list A) :
  subseq l1 l2 -> subseq l1 (l2 ++ l3).
Proof.
  induction 1; simpl.
  - apply subseq_nil_l.
  - apply subseq_skip. assumption.
  - apply subseq_keep. assumption.
Qed.

Lemma subseq_Forall {A} (P : A -> Prop) l1 l2 :
  subseq l1 l2 -> Forall P l2 -> Forall P l1.
Proof.
  induction 1; intros HF; [assumption | |];
    inversion HF; subst; auto.
Qed.

Lemma subseq_StronglySorted {A} (R : A -> A -> Prop) l1 l2 :
  subseq l1 l2 -> StronglySorted R l2 -> StronglySorted R l1.
Proof.
  induction 1; intros HS; [assumption | |];
    inversion HS; subst; auto.
  constructor; auto. eapply subseq_Forall; eassumption.
Qed.

(** ** Increasing timestamps are sorted up to the end of the stream *)

Lemma timestamps_sorted ts end_time :
  strictly_increasing ts = true ->
  ends_after ts end_time = true ->
  StronglySorted le_time (ts ++ [end_time]).
Proof.
  induction ts as [|a rest IH]; intros Hinc Hend.
  - simpl. repeat constructor.
  - destruct rest as [|b rest'].
    + simpl in *. repeat constructor. exact Hend.
    + cbn [strictly_increasing] in Hinc.
      apply andb_true_iff in Hinc as [Hab Hinc].
      assert (Hend' : ends_after (b :: rest') end_time = true) by exact Hend.
      specialize (IH Hinc Hend').
      simpl. constructor; [exact IH|].
      simpl in IH. inversion IH as [|? ? _ Hall]; subst.
      apply ltb_leb in Hab.
      constructor; [exact Hab|].
      eapply Forall_impl; [|exact Hall].
      intros c Hbc. eapply leb_trans; eassumption.
Qed.

(** ** The end points emitted are timestamps of the feed, in feed order *)

Lemma run_endpoints feed :
  forall last,
    no_sentinel (map fst feed) = true ->
    subseq (endpoints (snd (run last feed)) ++ pending (fst (run last feed)))
           (pending last ++ map fst feed).
Proof.
  induction feed as [|[timestamp energy] rest IH]; intros last Hns.
  - simpl. rewrite app_nil_r. apply subseq_refl.
  - cbn [map fst no_sentinel forallb] in Hns.
    apply andb_true_iff in Hns as [Hts Hns].
    cbn [run]. unfold observe.
    destruct (is_silent energy); unfold pending at 2, is_open;
      destruct (last =? -1)%float eqn:E; cbn [negb].
    + specialize (IH timestamp Hns).
      destruct (run timestamp rest) as [final outs].
      unfold pending at 2, is_open in IH. rewrite Hts in IH.
      simpl in *. exact IH.
    + specialize (IH last Hns).
      destruct (run last rest) as [final outs].
      unfold pending at 2, is_open in IH. rewrite E in IH.
      simpl in *. apply subseq_insert_second. exact IH.
    + specialize (IH last Hns).
      destruct (run last rest) as [final outs].
      unfold pending at 2, is_open in IH. rewrite E in IH.
      simpl in *. apply subseq_skip. exact IH.
    + specialize (IH (-1)%float Hns).
      destruct (run (-1)%float rest) as [final outs].
      simpl in *. apply subseq_keep, subseq_keep. exact IH.
Qed.

Lemma track_endpoints feed end_time :
  no_sentinel (map fst feed) = true ->
  subseq (endpoints (track feed end_time)) (map fst feed ++ [end_time]).
Proof.
  intros Hns. pose proof (run_endpoints feed (-1)%float Hns) as H.
  unfold track. destruct (run (-1)%float feed) as [final outs].
  change (pending (-1)%float) with (@nil float) in H. simpl in H.
  unfold flush. unfold pending, is_open in H.
  destruct (final =? -1)%float; cbn [negb snd emitted] in *.
  - rewrite !app_nil_r in *. apply subseq_app_r. exact H.
  - unfold endpoints in *. rewrite flat_map_app. simpl.
    change [final; end_time] with ([final] ++ [end_time]).
    rewrite app_assoc. apply subseq_snoc. exact H.
Qed.

(** ** Sorted end points give ordered, disjoint intervals *)

Lemma Forall_endpoints (P : float -> Prop) ivs :
  Forall P (endpoints ivs) -> Forall (fun iv => P (fst iv)) ivs.
Proof.
  induction ivs as [|iv rest IH]; intros H; constructor;
    simpl in H; inversion H as [|? ? ? H']; subst; auto.
  inversion H'; subst; auto.
Qed.

Lemma sorted_endpoints ivs :
  StronglySorted le_time (endpoints ivs) ->
  Forall (fun iv => le_time (fst iv) (snd iv)) ivs /\
  ForallOrdPairs (fun a b => le_time (snd a) (fst b)) ivs.
Proof.
  induction ivs as [|iv rest IH]; intros H.
  - split; constructor.
  - simpl in H. inversion H as [|? ? H1 Hs]; subst.
    inversion H1 as [|? ? H2 He]; subst.
    destruct (IH H2) as [IHa IHb].
    inversion Hs; subst.
    split; constructor; auto.
    apply Forall_endpoints. assumption.
Qed.

(** ** One interval per maximal run of silent frames *)

Lemma run_count feed :
  forall last,
    no_sentinel (map fst feed) = true ->
    (List.length (snd (run last feed)) + owed (fst (run last feed))
     = silent_runs (is_open last) (map (fun p => is_silent (snd p)) feed)
       + owed last)%nat.
Proof.
  induction feed as [|[timestamp energy] rest IH]; intros last Hns.
  - reflexivity.
  - cbn [map fst no_sentinel forallb] in Hns.
    apply andb_true_iff in Hns as [Hts Hns].
    cbn [run map silent_runs snd]. unfold observe.
    destruct (is_silent energy); destruct (last =? -1)%float eqn:E;
      cbn [negb andb];
      [ specialize (IH timestamp Hns); destruct (run timestamp rest) as [final outs]
      | specialize (IH last Hns); destruct (run last rest) as [final outs]
      | specialize (IH last Hns); destruct (run last rest) as [final outs]
      | specialize (IH (-1)%float Hns);
        destruct (run (-1)%float rest) as [final outs] ];
      unfold owed, is_open in IH |- *;
      rewrite ?E; rewrite ?E, ?Hts in IH;
      change (-1 =? -1)%float with true in IH;
      cbn [negb andb fst snd emitted app List.length] in IH |- *; lia.
Qed.

Lemma track_count feed end_time :
  no_sentinel (map fst feed) = true ->
  List.length (track feed end_time)
  = silent_runs false (map (fun p => is_silent (snd p)) feed).
Proof.
  intros Hns. pose proof (run_count feed (-1)%float Hns) as H.
  unfold track. destruct (run (-1)%float feed) as [final outs].
  rewrite length_app. unfold flush. unfold owed, is_open in H.
  simpl in H. destruct (final =? -1)%float; simpl in *; lia.
Qed.

(** ** An interval is open exactly while the frames are silent *)

Lemma run_app feed1 feed2 :
  forall last,
    run last (feed1 ++ feed2)
    = (fst (run (fst (run last feed1)) feed2),
       snd (run last feed1) ++ snd (run (fst (run last feed1)) feed2)).
Proof.
  induction feed1 as [|[timestamp energy] rest IH]; intros last.
  - simpl. destruct (run last feed2); reflexivity.
  - cbn [app run].
    destruct (observe last timestamp energy) as [last' out].
    rewrite IH.
    destruct (run last' rest) as [final outs]. cbn [fst snd].
    destruct (run final feed2) as [final2 outs2]. cbn [fst snd].
    rewrite app_assoc. reflexivity.
Qed.

Lemma open_after_frame pre timestamp energy last :
  (timestamp =? -1)%float = false ->
  is_open (fst (run last (pre ++ [(timestamp, energy)]))) = is_silent energy.
Proof.
  intros Hts. rewrite run_app. cbn [fst].
  generalize (fst (run last pre)). intros l.
  cbn [run]. unfold observe, is_open.
  destruct (is_silent energy), (l =? -1)%float eqn:E;
    cbn [negb fst]; rewrite ?Hts, ?E; reflexivity.
Qed.

(** C4, as the code has it: for a feed whose timestamps are strictly
    increasing and never -1, flushed at a time that is not before the last
    frame, every emitted interval has start <= end, an earlier interval
    ends no later than a later one starts (so they do not overlap and are
    in time order), the end points are timestamps of the feed in feed
    order, the number of intervals is the number of maximal runs of
    consecutive silent frames, and after each frame an interval is open
    exactly when that frame is silent: the single state variable holds at
    most one. *)
Theorem track_intervals (feed : list (float * float)) (end_time : float) :
  strictly_increasing (map fst feed) = true ->
  no_sentinel (map fst feed) = true ->
  ends_after (map fst feed) end_time = true ->
  let out := track feed end_time in
  Forall (fun iv => le_time (fst iv) (snd iv)) out /\
  ForallOrdPairs (fun a b => le_time (snd a) (fst b)) out /\
  subseq (endpoints out) (map fst feed ++ [end_time]) /\
  List.length out = silent_runs false (map (fun p => is_silent (snd p)) feed) /\
  (forall pre p post,
      feed = pre ++ p :: post ->
      is_open (fst (run (-1)%float (pre ++ [p]))) = is_silent (snd p)).
Proof.
  intros Hinc Hns Hend out.
  pose proof (track_endpoints feed end_time Hns) as Hsub.
  pose proof (timestamps_sorted _ _ Hinc Hend) as Hsorted.
  pose proof (subseq_StronglySorted _ _ _ Hsub Hsorted) as Hout.
  destruct (sorted_endpoints _ Hout) as [Hle Hord].
  repeat split; try assumption.
  - apply track_count. exact Hns.
  - intros pre [timestamp energy] post ->.
    apply open_after_frame.
    rewrite map_app in Hns. unfold no_sentinel in Hns.
    rewrite forallb_app in Hns. apply andb_true_iff in Hns as [_ Hns].
    cbn [map fst forallb] in Hns. apply andb_true_iff in Hns as [Hns _].
    apply negb_true_iff. exact Hns.
Qed.

(** The multi-interval scenario of the specification meets the hypotheses
    of [track_intervals]. *)
Lemma track_intervals_scenario :
  let feed := [(0, 0.9); (1, 0.1); (2, 0.9); (3, 0.1); (4, 0.1); (5, 0.9)]%float in
  track feed 6 = [(1, 2); (3, 5)]%float /\
  (strictly_increasing (map fst feed) = true /\
   no_sentinel (map fst feed) = true /\
   ends_after (map fst feed) 6 = true) /\
  (let out := track feed 6 in
   Forall (fun iv => le_time (fst iv) (snd iv)) out /\
   ForallOrdPairs (fun a b => le_time (snd a) (fst b)) out /\
   subseq (endpoints out) (map fst feed ++ [6%float]) /\
   List.length out = silent_runs false (map (fun p => is_silent (snd p)) feed) /\
   (forall pre p post,
       feed = pre ++ p :: post ->
       is_open (fst (run (-1)%float (pre ++ [p]))) = is_silent (snd p))).
Proof.
  intros feed. split; [reflexivity|]. split; [repeat split; reflexivity|].
  apply (track_intervals feed 6%float); reflexivity.
Defined.

(** C4 as stated fails: a silent run that starts at timestamp -1 yields no
    interval, so the count is below the number of silent runs; and a
    flush time before the open start yields an interval with
    start > end. *)
Lemma track_sentinel_run_lost :
  (strictly_increasing (map fst [(-1, 0.1)]%float) = true /\
   track [(-1, 0.1)]%float 0 = [] /\
   silent_runs false (map (fun p => is_silent (snd p)) [(-1, 0.1)]%float) = 1%nat) /\
  (track [(5, 0.1)]%float 3 = [(5, 3)%float] /\
   (5 <=? 3)%float = false).
Proof. repeat split; reflexivity. Qed.

End Intervals.

(** * The report: what [main] writes *)

Module Report.

Lemma append_assoc (a b c : string) : ((a ++ b) ++ c = a ++ (b ++ c))%string.
Proof. induction a as [|ch a IH]; simpl; [reflexivity | now rewrite IH]. Qed.

Lemma append_nil_r (a : string) : (a ++ "")%string = a.
Proof. induction a as [|ch a IH]; simpl; [reflexivity | now rewrite IH]. Qed.

Lemma report_app ivs start_time end_time :
  report (ivs ++ [(start_time, end_time)])
  = do text <- report ivs;
    do line <- insertTimestamp start_time end_time;
    Some (text ++ line)%string.
Proof.
  induction ivs as [|[s e] rest IH].
  - simpl. destruct (insertTimestamp start_time end_time) as [line|]; simpl;
      [rewrite append_nil_r|]; reflexivity.
  - cbn [app report]. rewrite IH.
    destruct (insertTimestamp s e) as [l|]; [|reflexivity].
    cbn [bind]. destruct (report rest) as [text|]; [|reflexivity].
    cbn [bind].
    destruct (insertTimestamp start_time end_time) as [line|]; [|reflexivity].
    cbn [bind]. rewrite append_assoc. reflexivity.
Qed.

(** The loop writes the lines of the intervals the tracker emits. *)
Lemma main_loop_report frame_rate fs :
  forall last output_file,
    main_loop frame_rate (last, output_file) fs
    = do feed <- observations frame_rate fs;
      do text <- report (snd (run last feed));
      Some (fst (run last feed), (output_file ++ text)%string).
Proof.
  induction fs as [|frame rest IH]; intros last output_file.
  - simpl. rewrite append_nil_r. reflexivity.
  - cbn [main_loop observations]. unfold loop_body, observation.
    destruct (C.int_mul (nb_samples frame) (nb_channels frame)) as [sample_count|];
      [|reflexivity].
    cbn [bind].
    destruct (calculateEnergy (data0 frame) sample_count) as [energy|];
      [|reflexivity].
    cbn [bind].
    set (timestamp := frame_time frame_rate frame).
    assert (Hrun : forall os,
               run last ((timestamp, energy) :: os)
               = (fst (run (fst (observe last timestamp energy)) os),
                  emitted (snd (observe last timestamp energy))
                    ++ snd (run (fst (observe last timestamp energy)) os))).
    { intros os. cbn [run].
      destruct (observe last timestamp energy) as [last' out].
      cbn [fst snd]. destruct (run last' os); reflexivity. }
    unfold observe, is_silent in Hrun.
    destruct (energy <=? THRESHOLD)%float;
      destruct (last =? -1)%float; cbn [negb fst snd emitted app] in Hrun;
      cbn [negb bind].
    + rewrite IH. destruct (observations frame_rate rest) as [os|]; [|reflexivity].
      cbn [bind]. rewrite Hrun. reflexivity.
    + rewrite IH. destruct (observations frame_rate rest) as [os|]; [|reflexivity].
      cbn [bind]. rewrite Hrun. reflexivity.
    + rewrite IH. destruct (observations frame_rate rest) as [os|]; [|reflexivity].
      cbn [bind]. rewrite Hrun. reflexivity.
    + destruct (insertTimestamp last timestamp) as [line|] eqn:El; cbn [bind].
      * rewrite IH.
        destruct (observations frame_rate rest) as [os|]; [|reflexivity].
        cbn [bind]. rewrite Hrun. cbn [fst snd report]. rewrite El. cbn [bind].
        destruct (report (snd (run (-1)%float os))) as [text|]; [|reflexivity].
        cbn [bind]. rewrite append_assoc. reflexivity.
      * destruct (observations frame_rate rest) as [os|]; [|reflexivity].
        cbn [bind]. rewrite Hrun. cbn [fst snd report]. rewrite El. reflexivity.
Qed.

Lemma main_report m :
  main m = do feed <- observations (av_q2d (time_base m)) (frames m);
           report (track feed (stream_end_time m)).
Proof.
  unfold main. rewrite main_loop_report.
  destruct (observations (av_q2d (time_base m)) (frames m)) as [feed|];
    [|reflexivity].
  cbn [bind]. unfold track, flush.
  destruct (run (-1)%float feed) as [final outs]. cbn [fst snd].
  destruct (report outs) as [text|] eqn:Er; cbn [bind];
    destruct (final =? -1)%float; cbn [negb snd emitted];
    rewrite ?app_nil_r, ?report_app, ?Er; reflexivity.
Qed.

Lemma report_render ivs :
  report ivs = do fs <- report_fields ivs;
               Some (String.concat "" (map render fs)).
Proof.
  induction ivs as [|[s e] rest IH]; [reflexivity|].
  cbn [report report_fields]. unfold insertTimestamp.
  destruct (split_timestamp s e) as [f|]; [|reflexivity].
  cbn [bind]. rewrite IH.
  destruct (report_fields rest) as [fs|]; [|reflexivity].
  cbn [bind map]. f_equal.
  destruct fs as [|f' fs']; [apply append_nil_r | reflexivity].
Qed.

Lemma bind_Some {A B} (c : option A) (k : A -> option B) b :
  bind c k = Some b <-> exists a, c = Some a /\ k a = Some b.
Proof.
  destruct c as [a|]; simpl; split.
  - intros H. exists a. auto.
  - intros (a' & [= ->] & H). exact H.
  - discriminate.
  - intros (a' & [=] & _).
Qed.

Lemma double_to_int_truncate x z :
  C.double_to_int x = Some z -> C.truncate x = Some z /\ C.in_int z = true.
Proof.
  unfold C.double_to_int. destruct (C.truncate x) as [t|]; [|discriminate].
  cbn [bind]. destruct (C.in_int t) eqn:E; [|discriminate].
  intros [= ->]. auto.
Qed.

Lemma split_timestamp_Some start_time end_time f :
  split_timestamp start_time end_time = Some f <->
  C.double_to_int (C.floor (start_time / 60)) = Some (start_minutes f) /\
  C.double_to_int (remainder start_time (start_minutes f))
    = Some (start_seconds f) /\
  C.double_to_int (C.floor (end_time / 60)) = Some (end_minutes f) /\
  C.double_to_int (remainder end_time (start_minutes f))
    = Some (end_seconds f).
Proof.
  unfold split_timestamp. split.
  - intros H.
    apply bind_Some in H as (sm & Hsm & H).
    apply bind_Some in H as (ss & Hss & H).
    apply bind_Some in H as (em & Hem & H).
    apply bind_Some in H as (es & Hes & H).
    injection H as <-. cbn. auto.
  - intros (Hsm & Hss & Hem & Hes).
    rewrite Hsm. cbn [bind]. rewrite Hss. cbn [bind].
    rewrite Hem. cbn [bind]. rewrite Hes. cbn [bind].
    destruct f; reflexivity.
Qed.

Lemma report_fields_each ivs :
  forall fs,
    report_fields ivs = Some fs ->
    Forall2 (fun iv f => split_timestamp (fst iv) (snd iv) = Some f) ivs fs.
Proof.
  induction ivs as [|[s e] rest IH]; intros fs H.
  - injection H as <-. constructor.
  - cbn [report_fields] in H.
    apply bind_Some in H as (f & Hf & H).
    apply bind_Some in H as (fs' & Hfs & H).
    injection H as <-. constructor; auto.
Qed.

(** C8: the minutes of each end point are the floor of its time over 60
    and the seconds of the start are [start_time - start_minutes * 60],
    but the seconds of the end are [end_time - start_minutes * 60]: the
    minutes of the start, not those of the end.  (Each value is stored in
    an [int].)  So an interval from 30 s to 90 s is written with the end
    "1m90s". *)
Theorem insertTimestamp_fields :
  (forall start_time end_time f,
      split_timestamp start_time end_time = Some f <->
      C.double_to_int (C.floor (start_time / 60)) = Some (start_minutes f) /\
      C.double_to_int (remainder start_time (start_minutes f))
        = Some (start_seconds f) /\
      C.double_to_int (C.floor (end_time / 60)) = Some (end_minutes f) /\
      C.double_to_int (remainder end_time (start_minutes f))
        = Some (end_seconds f)) /\
  (forall start_time end_time,
      insertTimestamp start_time end_time
      = option_map render (split_timestamp start_time end_time)) /\
  split_timestamp 30 90 = Some (Fields 0 30 1 90) /\
  split_timestamp 61.5 125.25 = Some (Fields 1 1 2 65) /\
  insertTimestamp 30 90
  = Some ("Silent time: 0m30s - 1m90s" ++ C.endl)%string.
Proof.
  split; [exact split_timestamp_Some|].
  split; [|repeat split; reflexivity].
  intros start_time end_time. unfold insertTimestamp.
  destruct (split_timestamp start_time end_time); reflexivity.
Qed.

(** C9, as the code has it: [main] writes one line per emitted interval,
    in emission order, each of the form
    "Silent time: {start_min}m{start_sec}s - {end_min}m{end_sec}s"; all
    four fields are [int]s, the seconds being the remainders truncated
    toward zero. *)
Theorem report_lines :
  (forall m,
      main m = do feed <- observations (av_q2d (time_base m)) (frames m);
               do fs <- report_fields (track feed (stream_end_time m));
               Some (String.concat "" (map render fs))) /\
  (forall ivs fs,
      report_fields ivs = Some fs ->
      Forall2 (fun iv f => split_timestamp (fst iv) (snd iv) = Some f) ivs fs) /\
  (forall f,
      render f
      = ("Silent time: " ++ C.show_int (start_minutes f) ++ "m"
           ++ C.show_int (start_seconds f) ++ "s - "
           ++ C.show_int (end_minutes f) ++ "m"
           ++ C.show_int (end_seconds f) ++ "s" ++ C.endl)%string) /\
  (forall start_time end_time f,
      split_timestamp start_time end_time = Some f ->
      C.truncate (remainder start_time (start_minutes f))
        = Some (start_seconds f) /\
      C.truncate (remainder end_time (start_minutes f))
        = Some (end_seconds f)).
Proof.
  split; [|split; [exact report_fields_each | split; [reflexivity|]]].
  - intros m. rewrite main_report.
    destruct (observations (av_q2d (time_base m)) (frames m)); [|reflexivity].
    cbn [bind]. apply report_render.
  - intros start_time end_time f H.
    apply split_timestamp_Some in H as (_ & Hss & _ & Hes).
    apply double_to_int_truncate in Hss, Hes. tauto.
Qed.

(** C9 as stated fails: for the interval from 1.5 s to 2.5 s the remainders
    are 1.5 and 2.5, and the line shows the seconds 1 and 2. *)
Lemma seconds_are_truncated :
  remainder 1.5 0 = 1.5%float /\
  remainder 2.5 0 = 2.5%float /\
  split_timestamp 1.5 2.5 = Some (Fields 0 1 0 2) /\
  insertTimestamp 1.5 2.5 = Some ("Silent time: 0m1s - 0m2s" ++ C.endl)%string.
Proof. repeat split; reflexivity. Qed.

(** C6 is not met by the code: with [sample_count = 0] the division of
    line 51 is 0.0 / 0 = NaN, no check precedes [calculateEnergy] or the
    comparison with [THRESHOLD], and the NaN compares as not silent, so a
    frame without samples closes an open interval. *)
Theorem zero_length_frame_nan :
  (forall samples, calculateEnergy samples 0 = Some nan) /\
  is_silent nan = false /\
  (forall frame_rate p ch,
      observation frame_rate
        {| pts := p; nb_samples := 0; nb_channels := ch; data0 := [] |}
      = Some ((C.Z2double p * frame_rate)%float, nan)) /\
  main {| time_base := {| num := 1; den := 1 |}; duration := 3;
          ticks_per_frame := 1; codec_time_base_den := 1;
          frames := [ {| pts := 0; nb_samples := 2; nb_channels := 1;
                         data0 := [0; 0] |};
                      {| pts := 1; nb_samples := 0; nb_channels := 1;
                         data0 := [] |};
                      {| pts := 2; nb_samples := 2; nb_channels := 1;
                         data0 := [0; 0] |} ] |}
  = Some ("Silent time: 0m0s - 0m1s" ++ C.endl
            ++ "Silent time: 0m2s - 0m3s" ++ C.endl)%string.
Proof.
  repeat split; reflexivity.
Qed.

(** C7 is not met by the code: a frame time is [pts * time_base] of the
    stream, the end of the stream is [duration * ticks_per_frame] over
    the denominator of the decoder's time base.  For a stream in units of
    1/44100 s whose decoder has ticks_per_frame 1 and time base
    denominator 1, a duration of 441000 ticks is 10 s on the scale of the
    frame times and 441000 as end of the stream. *)
Theorem end_time_in_other_units :
  let m := {| time_base := {| num := 1; den := 44100 |}; duration := 441000;
              ticks_per_frame := 1; codec_time_base_den := 1;
              frames := [ {| pts := 0; nb_samples := 2; nb_channels := 1;
                             data0 := [32767; -32768] |};
                          {| pts := 44100; nb_samples := 2; nb_channels := 1;
                             data0 := [0; 0] |} ] |} in
  (C.Z2double (duration m) * av_q2d (time_base m))%float = 10%float /\
  stream_end_time m = 441000%float /\
  observations (av_q2d (time_base m)) (frames m)
  = Some [(0, 0.99996948288753629); (1, 0)]%float /\
  main m = Some ("Silent time: 0m1s - 7350m441000s" ++ C.endl)%string.
Proof. repeat split; reflexivity. Qed.

End Report.

(** * The energy of a frame *)

Module Energy.

Import FloatFacts.

Lemma skipn_nth_error {A} (l : list A) :
  forall i x, nth_error l i = Some x -> skipn i l = x :: skipn (S i) l.
Proof.
  induction l as [|a l IH]; intros [|i] x H; try discriminate.
  - injection H as ->. reflexivity.
  - simpl in H. exact (IH i x H).
Qed.

(** The loop is a left fold over the samples it reads. *)
Lemma energy_loop_fold samples n :
  forall i energy,
    (i + n <= List.length samples)%nat ->
    energy_loop samples n i energy
    = Some (fold_left (fun acc s => acc + square_normalized s)%float
                      (firstn n (skipn i samples)) energy).
Proof.
  induction n as [|n IH]; intros i energy Hlen.
  - reflexivity.
  - cbn [energy_loop].
    destruct (nth_error samples i) as [s|] eqn:E.
    + cbn [bind]. rewrite IH by lia.
      rewrite (skipn_nth_error samples i s E). reflexivity.
    + apply nth_error_None in E. lia.
Qed.

Lemma fold_zero_samples samples :
  Forall (fun s => s = 0) samples ->
  fold_left (fun acc s => acc + square_normalized s)%float samples 0%float
  = 0%float.
Proof.
  induction 1 as [|s rest Hs _ IH]; [reflexivity|].
  subst s. exact IH.
Qed.

(** C2: for a frame of N >= 1 samples [calculateEnergy] is the mean of
    the squares of [sample / 32768.0] over all N samples, summed in index
    order and divided by N, with no square root, no subtraction of a mean
    and no window; a frame of zeros has energy 0. *)
Theorem calculateEnergy_mean_square (samples : list Z) (N : Z) :
  1 <= N <= C.INT_MAX ->
  N = Z.of_nat (List.length samples) ->
  calculateEnergy samples N = Some (mean_square samples) /\
  (Forall (fun s => s = 0) samples ->
   calculateEnergy samples N = Some 0%float).
Proof.
  intros HN Hlen.
  assert (E : calculateEnergy samples N = Some (mean_square samples)).
  { unfold calculateEnergy, mean_square.
    rewrite energy_loop_fold by lia.
    cbn [bind skipn]. rewrite Hlen, Nat2Z.id, firstn_all. reflexivity. }
  split; [exact E|].
  intros Hzero. rewrite E. unfold mean_square.
  rewrite fold_zero_samples by exact Hzero.
  rewrite <- Hlen. f_equal. apply zero_div_Z2double.
  unfold C.INT_MAX in HN. lia.
Qed.

(** A frame of three zero samples, and one at half scale: its energy is
    0.25, the mean square, not the root mean square 0.5. *)
Lemma calculateEnergy_examples :
  (1 <= 3 <= C.INT_MAX /\ 3 = Z.of_nat (List.length [0; 0; 0])) /\
  (calculateEnergy [0; 0; 0] 3 = Some (mean_square [0; 0; 0]) /\
   calculateEnergy [0; 0; 0] 3 = Some 0%float) /\
  calculateEnergy [16384; -16384] 2 = Some 0.25%float.
Proof.
  assert (H1 : 1 <= 3 <= C.INT_MAX) by (unfold C.INT_MAX; lia).
  assert (H2 : 3 = Z.of_nat (List.length [0; 0; 0])) by reflexivity.
  split; [split; assumption|].
  split; [|reflexivity].
  destruct (calculateEnergy_mean_square [0; 0; 0] 3 H1 H2) as [A B].
  split; [exact A|]. apply B. repeat constructor.
Defined.

End Energy.

(** * Further properties *)

(** ** The order of doubles *)

Module FloatOrder.

Import FloatFacts.

Ltac sf_order :=
  unfold SFleb, SFltb;
  repeat match goal with x : spec_float |- _ => destruct x end;
  simpl; try discriminate; try reflexivity;
  repeat match goal with s : bool |- _ => destruct s end;
  simpl; try discriminate; try reflexivity;
  cmp_cases; simpl; intros; subst;
  try discriminate; try reflexivity; try lia.

Lemma SFltb_trans x y z :
  SFltb x y = true -> SFltb y z = true -> SFltb x z = true.
Proof. sf_order. Qed.

Lemma SFleb_ltb_trans x y z :
  SFleb x y = true -> SFltb y z = true -> SFltb x z = true.
Proof. sf_order. Qed.

Lemma SFltb_leb_trans x y z :
  SFltb x y = true -> SFleb y z = true -> SFltb x z = true.
Proof. sf_order. Qed.

Lemma SFltb_not_leb x y : SFltb x y = true -> SFleb y x = false.
Proof. sf_order. Qed.

Lemma SFltb_irrefl x : SFltb x x = false.
Proof. sf_order. Qed.

Lemma SFltb_leb_refl_l x y : SFltb x y = true -> SFleb x x = true.
Proof. sf_order. Qed.

Lemma ltb_trans (x y z : float) :
  (x <? y)%float = true -> (y <? z)%float = true -> (x <? z)%float = true.
Proof. rewrite !ltb_spec. apply SFltb_trans. Qed.

Lemma leb_ltb_trans (x y z : float) :
  (x <=? y)%float = true -> (y <? z)%float = true -> (x <? z)%float = true.
Proof. rewrite leb_spec, !ltb_spec. apply SFleb_ltb_trans. Qed.

Lemma ltb_leb_trans (x y z : float) :
  (x <? y)%float = true -> (y <=? z)%float = true -> (x <? z)%float = true.
Proof. rewrite !ltb_spec, leb_spec. apply SFltb_leb_trans. Qed.

Lemma ltb_not_leb (x y : float) :
  (x <? y)%float = true -> (y <=? x)%float = false.
Proof. rewrite ltb_spec, leb_spec. apply SFltb_not_leb. Qed.

Lemma ltb_irrefl (x : float) : (x <? x)%float = false.
Proof. rewrite ltb_spec. apply SFltb_irrefl. Qed.

Lemma ltb_leb_refl_l (x y : float) :
  (x <? y)%float = true -> (x <=? x)%float = true.
Proof. rewrite ltb_spec, leb_spec. apply SFltb_leb_refl_l. Qed.

(** Strictly increasing lists are sorted for [<], any two elements. *)
Lemma increasing_sorted ts :
  strictly_increasing ts = true -> StronglySorted lt_time ts.
Proof.
  induction ts as [|a rest IH]; intros Hinc; [constructor|].
  destruct rest as [|b rest'].
  - repeat constructor.
  - cbn [strictly_increasing] in Hinc.
    apply andb_true_iff in Hinc as [Hab Hinc].
    specialize (IH Hinc). constructor; [exact IH|].
    inversion IH as [|? ? _ Hall]; subst.
    constructor; [exact Hab|].
    eapply Forall_impl; [|exact Hall].
    intros c Hbc. eapply ltb_trans; eassumption.
Qed.

End FloatOrder.

(** ** Silent frames and reported intervals *)

Module Coverage.

Import FloatFacts FloatOrder.

Lemma track_is_track_from feed end_time :
  track feed end_time = track_from (-1)%float feed end_time.
Proof.
  unfold track, track_from. destruct (run (-1)%float feed); reflexivity.
Qed.

Lemma track_from_cons last timestamp energy rest end_time :
  track_from last ((timestamp, energy) :: rest) end_time
  = emitted (snd (observe last timestamp energy))
    ++ track_from (fst (observe last timestamp energy)) rest end_time.
Proof.
  unfold track_from. cbn [run].
  destruct (observe last timestamp energy) as [last' out]. cbn [fst snd].
  destruct (run last' rest) as [final outs]. cbn [fst snd].
  rewrite app_assoc. reflexivity.
Qed.

(** The four cases of [observe], by the state and the classification. *)
Lemma observe_cases last timestamp energy :
  observe last timestamp energy
  = match is_silent energy, is_open last with
    | true, false => (timestamp, None)
    | true, true => (last, None)
    | false, true => ((-1)%float, Some (last, timestamp))
    | false, false => (last, None)
    end.
Proof.
  unfold observe, is_open.
  destruct (is_silent energy), (last =? -1)%float; reflexivity.
Qed.

Lemma pending_closed last : is_open last = false -> pending last = [].
Proof. unfold pending. intros ->. reflexivity. Qed.

Lemma pending_open last : is_open last = true -> pending last = [last].
Proof. unfold pending. intros ->. reflexivity. Qed.

(** Every interval starts at the open start or at a timestamp of the feed. *)
Lemma starts_in_feed feed :
  forall last end_time iv,
    In iv (track_from last feed end_time) ->
    In (fst iv) (pending last ++ map fst feed).
Proof.
  induction feed as [|[timestamp energy] rest IH]; intros last end_time iv Hin.
  - unfold track_from, flush, pending, is_open in *. cbn [run fst snd app] in Hin.
    destruct (negb (last =? -1)%float); cbn in Hin |- *; [|contradiction].
    destruct Hin as [<-|[]]. left. reflexivity.
  - rewrite track_from_cons, observe_cases in Hin.
    apply in_or_app.
    destruct (is_silent energy), (is_open last) eqn:Eo; cbn [fst snd emitted app] in Hin.
    + apply IH in Hin. rewrite (pending_open _ Eo) in *.
      apply in_app_or in Hin as [Hin|Hin]; [left; exact Hin|].
      right. right. exact Hin.
    + apply IH in Hin. right.
      apply in_app_or in Hin as [Hin|Hin]; [|right; exact Hin].
      unfold pending in Hin. destruct (is_open timestamp); [|contradiction].
      destruct Hin as [<-|[]]. left. reflexivity.
    + destruct Hin as [<-|Hin].
      * left. rewrite (pending_open _ Eo). left. reflexivity.
      * apply IH in Hin. right. right. exact Hin.
    + apply IH in Hin. rewrite (pending_closed _ Eo) in *.
      right. right. exact Hin.
Qed.

(** An open interval is reported, ending at a later frame or at the end. *)
Lemma open_interval_reported feed :
  forall last end_time,
    is_open last = true ->
    exists e, In (last, e) (track_from last feed end_time) /\
              In e (map fst feed ++ [end_time]).
Proof.
  induction feed as [|[timestamp energy] rest IH]; intros last end_time Ho.
  - exists end_time. unfold track_from, flush. cbn [run fst snd app].
    unfold is_open in Ho. rewrite Ho. cbn. auto.
  - rewrite track_from_cons, observe_cases, Ho.
    destruct (is_silent energy); cbn [fst snd emitted app].
    + destruct (IH last end_time Ho) as (e & Hin & He).
      exists e. split; [exact Hin|]. right. exact He.
    + exists timestamp. split; left; reflexivity.
Qed.

Lemma covered_iff feed :
  forall last end_time,
    StronglySorted lt_time (map fst feed ++ [end_time]) ->
    no_sentinel (map fst feed) = true ->
    (is_open last = true -> Forall (le_time last) (map fst feed)) ->
    forall t e,
      In (t, e) feed ->
      (is_silent e = true <->
       exists iv, In iv (track_from last feed end_time) /\ covers iv t = true).
Proof.
  induction feed as [|[timestamp energy] rest IH];
    intros last end_time Hsorted Hns Hlast t e Hin; [contradiction|].
  cbn [map fst app] in Hsorted.
  inversion Hsorted as [|? ? Hsorted' Hlt]; subst.
  cbn [map fst no_sentinel forallb] in Hns.
  apply andb_true_iff in Hns as [Hts Hns].
  assert (Hopen_ts : is_open timestamp = true) by exact Hts.
  assert (Hend : lt_time timestamp end_time).
  { rewrite Forall_forall in Hlt. apply Hlt. apply in_or_app. right. left. reflexivity. }
  assert (Hlast' : is_open (fst (observe last timestamp energy)) = true ->
                   Forall (le_time (fst (observe last timestamp energy))) (map fst rest)).
  { rewrite observe_cases.
    destruct (is_silent energy), (is_open last) eqn:Eo; cbn [fst]; intros Ho.
    - specialize (Hlast eq_refl). inversion Hlast; assumption.
    - apply Forall_app in Hlt as [Hlt _].
      eapply Forall_impl; [|exact Hlt]. intros c Hc. apply ltb_leb. exact Hc.
    - discriminate Ho.
    - congruence. }
  specialize (IH (fst (observe last timestamp energy)) end_time Hsorted' Hns Hlast').
  rewrite track_from_cons.
  destruct Hin as [Heq|Hin].
  - injection Heq as <- <-. clear IH.
    destruct (is_silent energy) eqn:Es.
    + split; [intros _|reflexivity].
      assert (Hopen' : is_open (fst (observe last timestamp energy)) = true).
      { rewrite observe_cases, Es. destruct (is_open last) eqn:Eo; cbn [fst]; assumption. }
      destruct (open_interval_reported rest _ end_time Hopen') as (e' & Hin' & He').
      eexists. split; [apply in_or_app; right; exact Hin'|].
      unfold covers. cbn [fst snd]. apply andb_true_iff. split.
      * rewrite observe_cases, Es.
        destruct (is_open last) eqn:Eo; cbn [fst].
        -- specialize (Hlast eq_refl). inversion Hlast; assumption.
        -- eapply ltb_leb_refl_l. exact Hend.
      * rewrite Forall_forall in Hlt. apply Hlt. exact He'.
    + split; [discriminate|]. intros (iv & Hiv & Hcov). exfalso.
      unfold covers in Hcov. apply andb_true_iff in Hcov as [Hc1 Hc2].
      rewrite observe_cases, Es in Hiv.
      destruct (is_open last) eqn:Eo; cbn [fst snd emitted app] in Hiv.
      * destruct Hiv as [<-|Hiv].
        -- cbn [snd] in Hc2. rewrite ltb_irrefl in Hc2. discriminate.
        -- apply starts_in_feed in Hiv. cbn [pending app] in Hiv.
           change (pending (-1)%float) with (@nil float) in Hiv. cbn [app] in Hiv.
           apply Forall_app in Hlt as [Hlt _]. rewrite Forall_forall in Hlt.
           apply Hlt, ltb_not_leb in Hiv. congruence.
      * apply starts_in_feed in Hiv. rewrite (pending_closed _ Eo) in Hiv.
        cbn [app] in Hiv.
        apply Forall_app in Hlt as [Hlt _]. rewrite Forall_forall in Hlt.
        apply Hlt, ltb_not_leb in Hiv. congruence.
  - rewrite (IH t e Hin). clear IH.
    split; intros (iv & Hiv & Hcov); exists iv; split; try exact Hcov.
    + apply in_or_app. right. exact Hiv.
    + apply in_app_or in Hiv as [Hiv|Hiv]; [|exact Hiv]. exfalso.
      rewrite observe_cases in Hiv.
      destruct (is_silent energy), (is_open last); cbn [snd emitted] in Hiv;
        try contradiction.
      destruct Hiv as [<-|[]].
      unfold covers in Hcov. apply andb_true_iff in Hcov as [_ Hc2]. cbn [snd] in Hc2.
      assert (Ht : lt_time timestamp t).
      { apply Forall_app in Hlt as [Hlt _]. rewrite Forall_forall in Hlt.
        apply Hlt. apply (in_map fst) in Hin. exact Hin. }
      pose proof (ltb_trans _ _ _ Ht Hc2) as Habs.
      rewrite ltb_irrefl in Habs. discriminate.
Qed.

(** X1: for frames at strictly increasing times, none of them -1, and an end of
    stream after the last frame: a frame is silent exactly when its time
    lies in a reported interval (start included, end excluded). *)
Theorem silent_iff_covered (feed : list (float * float)) (end_time : float) :
  strictly_increasing (map fst feed ++ [end_time]) = true ->
  no_sentinel (map fst feed) = true ->
  forall t e,
    In (t, e) feed ->
    (is_silent e = true <->
     exists iv, In iv (track feed end_time) /\ covers iv t = true).
Proof.
  intros Hinc Hns t e Hin. rewrite track_is_track_from.
  apply covered_iff; try assumption.
  - apply increasing_sorted. exact Hinc.
  - discriminate.
Qed.

Lemma silent_iff_covered_scenario :
  let feed := [(0, 0.9); (1, 0.1); (2, 0.9); (3, 0.1); (4, 0.1); (5, 0.9)]%float in
  track feed 6 = [(1, 2); (3, 5)]%float /\
  (strictly_increasing (map fst feed ++ [6%float]) = true /\
   no_sentinel (map fst feed) = true /\
   In (4, 0.1)%float feed) /\
  (is_silent 0.1 = true <->
   exists iv, In iv (track feed 6) /\ covers iv 4 = true).
Proof.
  intros feed. split; [reflexivity|].
  assert (Hin : In (4, 0.1)%float feed) by (do 4 right; left; reflexivity).
  split; [repeat split; try reflexivity; exact Hin|].
  apply (silent_iff_covered feed 6%float); try reflexivity. exact Hin.
Defined.

End Coverage.

(** ** Streams without silence, streams of silence only *)

Module Uniform.

Lemma run_all_loud feed :
  Forall (fun p => is_silent (snd p) = false) feed ->
  run (-1)%float feed = ((-1)%float, []).
Proof.
  induction 1 as [|[timestamp energy] rest Hloud _ IH]; [reflexivity|].
  cbn [run snd] in *. unfold observe. rewrite Hloud.
  change (negb (-1 =? -1)%float) with false. cbn iota.
  rewrite IH. reflexivity.
Qed.

Lemma run_all_silent feed :
  forall last,
    is_open last = true ->
    Forall (fun p => is_silent (snd p) = true) feed ->
    run last feed = (last, []).
Proof.
  induction feed as [|[timestamp energy] rest IH]; intros last Ho Hs;
    [reflexivity|].
  inversion Hs as [|? ? Hhead Hrest]; subst. cbn [snd] in Hhead.
  cbn [run]. unfold observe. rewrite Hhead.
  unfold is_open in Ho. apply negb_true_iff in Ho. rewrite Ho.
  rewrite IH; [reflexivity | unfold is_open; rewrite Ho; reflexivity | exact Hrest].
Qed.

(** X2: when no frame is silent [main] writes nothing, whatever the timestamps
    and the duration of the stream. *)
Theorem main_no_silence (m : media) (feed : list (float * float)) :
  observations (av_q2d (time_base m)) (frames m) = Some feed ->
  Forall (fun p => is_silent (snd p) = false) feed ->
  main m = Some EmptyString.
Proof.
  intros Hobs Hloud. rewrite Report.main_report, Hobs. cbn [bind].
  unfold track. rewrite (run_all_loud feed Hloud). reflexivity.
Qed.

Lemma main_no_silence_example :
  let m := {| time_base := {| num := 1; den := 2 |}; duration := 4;
              ticks_per_frame := 1; codec_time_base_den := 1;
              frames := [ {| pts := 0; nb_samples := 1; nb_channels := 2;
                             data0 := [32767; -32768] |};
                          {| pts := 1; nb_samples := 1; nb_channels := 2;
                             data0 := [-20000; 20000] |} ] |} in
  let feed := [(0, 0.99996948288753629); (0.5, 0.37252902984619141)]%float in
  (observations (av_q2d (time_base m)) (frames m) = Some feed /\
   Forall (fun p => is_silent (snd p) = false) feed) /\
  main m = Some EmptyString.
Proof.
  intros m feed.
  assert (H1 : observations (av_q2d (time_base m)) (frames m) = Some feed)
    by reflexivity.
  assert (H2 : Forall (fun p => is_silent (snd p) = false) feed)
    by (repeat constructor).
  split; [split; assumption|].
  exact (main_no_silence m feed H1 H2).
Defined.

(** X3: when every frame is silent and the first timestamp is not -1, [main]
    writes exactly the line of one interval, from the first frame to the
    end time computed from the stream. *)
Theorem main_all_silent (m : media) (t0 e0 : float) (rest : list (float * float)) :
  observations (av_q2d (time_base m)) (frames m) = Some ((t0, e0) :: rest) ->
  is_open t0 = true ->
  Forall (fun p => is_silent (snd p) = true) ((t0, e0) :: rest) ->
  main m = insertTimestamp t0 (stream_end_time m).
Proof.
  intros Hobs Ho Hs. rewrite Report.main_report, Hobs. cbn [bind].
  inversion Hs as [|? ? Hhead Hrest]; subst. cbn [snd] in Hhead.
  unfold track. cbn [run]. unfold observe. rewrite Hhead.
  change (-1 =? -1)%float with true. cbn iota.
  rewrite (run_all_silent rest t0 Ho Hrest).
  unfold flush. unfold is_open in Ho. rewrite Ho.
  cbn [snd emitted app report].
  destruct (insertTimestamp t0 (stream_end_time m)) as [line|]; [|reflexivity].
  cbn [bind]. rewrite Report.append_nil_r. reflexivity.
Qed.

Lemma main_all_silent_example :
  let m := {| time_base := {| num := 1; den := 2 |}; duration := 4;
              ticks_per_frame := 1; codec_time_base_den := 2;
              frames := [ {| pts := 1; nb_samples := 1; nb_channels := 2;
                             data0 := [0; 0] |};
                          {| pts := 2; nb_samples := 1; nb_channels := 2;
                             data0 := [100; -100] |} ] |} in
  let rest := [(1, 9.31322574615478516e-06)]%float in
  (observations (av_q2d (time_base m)) (frames m) = Some ((0.5, 0)%float :: rest) /\
   is_open 0.5 = true /\
   Forall (fun p => is_silent (snd p) = true) ((0.5, 0)%float :: rest)) /\
  main m = insertTimestamp 0.5 (stream_end_time m) /\
  main m = Some ("Silent time: 0m0s - 0m2s" ++ C.endl)%string.
Proof.
  intros m rest.
  assert (H1 : observations (av_q2d (time_base m)) (frames m)
               = Some ((0.5, 0)%float :: rest)) by reflexivity.
  assert (H2 : is_open 0.5 = true) by reflexivity.
  assert (H3 : Forall (fun p => is_silent (snd p) = true) ((0.5, 0)%float :: rest))
    by (repeat constructor).
  split; [repeat split; assumption|].
  split; [|reflexivity].
  exact (main_all_silent m 0.5%float 0%float rest H1 H2 H3).
Defined.

End Uniform.

(** ** The sample buffer and its bounds *)

Module Buffer.

Lemma energy_loop_past samples n :
  forall i energy,
    (i <= List.length samples < i + n)%nat ->
    energy_loop samples n i energy = None.
Proof.
  induction n as [|n IH]; intros i energy Hlen; [lia|].
  cbn [energy_loop].
  destruct (nth_error samples i) as [s|] eqn:E; [|reflexivity].
  cbn [bind]. apply IH.
  assert (i < List.length samples)%nat by (apply nth_error_Some; congruence).
  lia.
Qed.

Lemma energy_loop_firstn samples n :
  forall i energy,
    energy_loop samples n i energy
    = energy_loop (firstn (i + n) samples) n i energy.
Proof.
  induction n as [|n IH]; intros i energy; [reflexivity|].
  cbn [energy_loop].
  rewrite (nth_error_firstn (i + S n) samples i).
  destruct (Nat.ltb_spec i (i + S n)); [|lia].
  destruct (nth_error samples i) as [s|]; [|reflexivity].
  cbn [bind]. rewrite IH. replace (S i + n)%nat with (i + S n)%nat by lia.
  reflexivity.
Qed.

(** X4: [calculateEnergy] reads exactly the first [sample_count] samples: its
    behaviour is undefined (a read past the buffer) exactly when the buffer
    holds fewer, and the samples after the first [sample_count] never
    matter. *)
Theorem calculateEnergy_bounds (samples : list Z) (sample_count : Z) :
  (calculateEnergy samples sample_count = None <->
   Z.of_nat (List.length samples) < sample_count) /\
  calculateEnergy samples sample_count
  = calculateEnergy (firstn (Z.to_nat sample_count) samples) sample_count.
Proof.
  split.
  - unfold calculateEnergy. split.
    + intros H.
      destruct (Z.lt_ge_cases (Z.of_nat (List.length samples)) sample_count)
        as [Hlt|Hge]; [exact Hlt|].
      rewrite Energy.energy_loop_fold in H by lia. discriminate H.
    + intros Hlt. rewrite energy_loop_past by lia. reflexivity.
  - unfold calculateEnergy.
    rewrite (energy_loop_firstn samples (Z.to_nat sample_count) 0). reflexivity.
Qed.

End Buffer.

(** ** Set-up and the packet loop *)

Module Program.

Lemma find_audio_from_spec types :
  forall i,
    0 <= i ->
    i + Z.of_nat (List.length types) <= C.INT_MAX + 1 ->
    (Forall (fun t => is_audio t = false) types /\
     find_audio_from types i = -1) \/
    (exists pre post,
        types = pre ++ AVMEDIA_TYPE_AUDIO :: post /\
        Forall (fun t => is_audio t = false) pre /\
        find_audio_from types i = i + Z.of_nat (List.length pre)).
Proof.
  induction types as [|t rest IH]; intros i Hi Hlen.
  - left. split; [constructor | reflexivity].
  - cbn [find_audio_from]. destruct (is_audio t) eqn:Et.
    + right. exists [], rest. destruct t; try discriminate.
      repeat split; [constructor|].
      unfold unsigned_to_int. cbn [List.length] in *.
      destruct (Z.leb_spec i C.INT_MAX); lia.
    + cbn [List.length] in Hlen.
      destruct (IH (i + 1)) as [[Hall Hfind]|(pre & post & -> & Hpre & Hfind)];
        try lia.
      * left. split; [constructor; assumption | exact Hfind].
      * right. exists (t :: pre), post.
        repeat split; [constructor; assumption|].
        rewrite Hfind. cbn [List.length]. lia.
Qed.

(** X5: the stream [main] picks is the first audio stream: the index found is
    that of an audio stream with no audio stream before it, and it is -1
    exactly when no stream is audio. *)
Theorem find_audio_stream_first (types : list AVMediaType) :
  Z.of_nat (List.length types) <= C.INT_MAX ->
  (Forall (fun t => is_audio t = false) types /\
   find_audio_stream types = -1) \/
  (exists pre post,
      types = pre ++ AVMEDIA_TYPE_AUDIO :: post /\
      Forall (fun t => is_audio t = false) pre /\
      find_audio_stream types = Z.of_nat (List.length pre)).
Proof.
  intros Hlen. unfold find_audio_stream.
  destruct (find_audio_from_spec types 0) as [H|(pre & post & H1 & H2 & H3)];
    try lia; [left; exact H|].
  right. exists pre, post. repeat split; assumption.
Qed.

Lemma find_audio_stream_example :
  let types := [AVMEDIA_TYPE_VIDEO; AVMEDIA_TYPE_AUDIO; AVMEDIA_TYPE_SUBTITLE;
                AVMEDIA_TYPE_AUDIO] in
  Z.of_nat (List.length types) <= C.INT_MAX /\
  find_audio_stream types = 1 /\
  ((Forall (fun t => is_audio t = false) types /\
    find_audio_stream types = -1) \/
   (exists pre post,
       types = pre ++ AVMEDIA_TYPE_AUDIO :: post /\
       Forall (fun t => is_audio t = false) pre /\
       find_audio_stream types = Z.of_nat (List.length pre))).
Proof.
  intros types.
  assert (H : Z.of_nat (List.length types) <= C.INT_MAX)
    by (unfold C.INT_MAX; cbn; lia).
  split; [exact H|]. split; [reflexivity|].
  exact (find_audio_stream_first types H).
Defined.

Lemma find_audio_from_none types :
  forall i, Forall (fun t => is_audio t = false) types ->
            find_audio_from types i = -1.
Proof.
  induction types as [|t rest IH]; intros i H; [reflexivity|].
  inversion H as [|? ? Ht Hrest]; subst.
  cbn [find_audio_from]. rewrite Ht. apply IH. exact Hrest.
Qed.

Lemma main_loop_app frame_rate fs1 fs2 :
  forall st,
    main_loop frame_rate st (fs1 ++ fs2)
    = do st' <- main_loop frame_rate st fs1; main_loop frame_rate st' fs2.
Proof.
  induction fs1 as [|frame rest IH]; intros st; [reflexivity|].
  cbn [app main_loop].
  destruct (loop_body frame_rate st frame) as [st'|]; [|reflexivity].
  cbn [bind]. apply IH.
Qed.

Lemma receive_loop_frames E frame_rate results :
  AVERROR_EAGAIN E < 0 -> AVERROR_EOF E < 0 ->
  forall st,
    receive_loop E frame_rate st results
    = main_loop frame_rate st (accepted results).
Proof.
  intros Hagain Heof.
  induction results as [|[ret frame] rest IH]; intros st; [reflexivity|].
  cbn [receive_loop accepted].
  destruct (Z.eqb_spec ret (AVERROR_EAGAIN E)) as [->|_].
  - destruct (Z.leb_spec 0 (AVERROR_EAGAIN E)); [lia | reflexivity].
  - destruct (Z.eqb_spec ret (AVERROR_EOF E)) as [->|_]; cbn [orb].
    + destruct (Z.leb_spec 0 (AVERROR_EOF E)); [lia | reflexivity].
    + destruct (0 <=? ret); [|reflexivity].
      cbn [main_loop].
      destruct (loop_body frame_rate st frame) as [st'|]; [|reflexivity].
      cbn [bind]. apply IH.
Qed.

Lemma packet_loop_main_loop E audio_stream_index frame_rate packets :
  AVERROR_EAGAIN E < 0 -> AVERROR_EOF E < 0 ->
  forall st,
    packet_loop E audio_stream_index frame_rate st packets
    = main_loop frame_rate st (decoded_frames audio_stream_index packets).
Proof.
  intros Hagain Heof.
  induction packets as [|packet rest IH]; intros st; [reflexivity|].
  cbn [packet_loop decoded_frames].
  destruct (stream_index packet =? audio_stream_index); [|apply IH].
  destruct (Z.ltb_spec (send_result packet) 0) as [Hneg|Hpos]; [reflexivity|].
  destruct (Z.eqb_spec (send_result packet) (AVERROR_EAGAIN E)); [lia|].
  destruct (Z.eqb_spec (send_result packet) (AVERROR_EOF E)); [lia|].
  cbn [orb]. rewrite main_loop_app, receive_loop_frames by assumption.
  destruct (main_loop frame_rate st (accepted (received packet))) as [st'|];
    [|reflexivity].
  cbn [bind]. apply IH.
Qed.

(** X6: the nested loops over packets and frames run the frame analysis over
    the frames decoded from the audio stream: the frames of its packets, in
    order, each packet's frames up to the first negative result of
    [avcodec_receive_frame], up to the first packet the decoder refuses. *)
Theorem packet_loop_frames (E : averrors) (audio_stream_index : Z)
  (frame_rate : float) (st : float * string) (packets : list AVPacket) :
  AVERROR_EAGAIN E < 0 -> AVERROR_EOF E < 0 ->
  packet_loop E audio_stream_index frame_rate st packets
  = main_loop frame_rate st (decoded_frames audio_stream_index packets).
Proof.
  intros Hagain Heof. apply packet_loop_main_loop; assumption.
Qed.

(** X7: packets of the other streams never change the state or the output. *)
Theorem other_streams_ignored (E : averrors) (audio_stream_index : Z)
  (frame_rate : float) (packets : list AVPacket) :
  forall st,
    packet_loop E audio_stream_index frame_rate st packets
    = packet_loop E audio_stream_index frame_rate st
        (filter (fun p => stream_index p =? audio_stream_index) packets).
Proof.
  induction packets as [|packet rest IH]; intros st; [reflexivity|].
  cbn [packet_loop filter].
  destruct (stream_index packet =? audio_stream_index) eqn:Ei; [|apply IH].
  cbn [packet_loop]. rewrite Ei.
  destruct ((send_result packet <? 0)
            || (send_result packet =? AVERROR_EAGAIN E)
            || (send_result packet =? AVERROR_EOF E)); [reflexivity|].
  destruct (receive_loop E frame_rate st (received packet)) as [st'|];
    [|reflexivity].
  cbn [bind]. apply IH.
Qed.

Lemma find_audio_from_app pre t post :
  forall i,
    Forall (fun t => is_audio t = false) pre ->
    is_audio t = true ->
    find_audio_from (pre ++ t :: post) i
    = unsigned_to_int (i + Z.of_nat (List.length pre)).
Proof.
  induction pre as [|a pre IH]; intros i Hpre Ht.
  - cbn [app find_audio_from List.length]. rewrite Ht. f_equal. lia.
  - inversion Hpre as [|? ? Ha Hpre']; subst.
    cbn [app find_audio_from]. rewrite Ha, IH by assumption.
    f_equal. cbn [List.length]. lia.
Qed.

Lemma find_audio_from_found types :
  forall i, find_audio_from types i <> -1 ->
            Exists (fun t => is_audio t = true) types.
Proof.
  induction types as [|t rest IH]; intros i H; [contradiction H; reflexivity|].
  cbn [find_audio_from] in H. destruct (is_audio t) eqn:Et.
  - left. exact Et.
  - right. apply (IH (i + 1)). exact H.
Qed.

(** X8: when every set-up call succeeds, the file [main] saves is the analysis
    of the first audio stream: its time base and duration, and the frames
    decoded from its packets. *)
Theorem program_analyses_first_audio (E : averrors) (v : video)
  (pre : list AVStream) (s : AVStream) (post : list AVStream) :
  AVERROR_EAGAIN E < 0 -> AVERROR_EOF E < 0 ->
  open_input_ok v = true -> stream_info_ok v = true ->
  codec_open_ok v = true -> output_open_ok v = true ->
  Z.of_nat (List.length (streams v)) <= C.INT_MAX ->
  streams v = pre ++ s :: post ->
  Forall (fun s' => is_audio (codec_type s') = false) pre ->
  is_audio (codec_type s) = true ->
  program E v
  = option_map Saved (main (media_of v (Z.of_nat (List.length pre)) s)).
Proof.
  intros Hagain Heof Hopen Hinfo Hcodec Hout Hlen Hstreams Hpre Hs.
  unfold program. rewrite Hopen, Hinfo, Hcodec, Hout. cbn [negb].
  assert (Hidx : find_audio_stream (map codec_type (streams v))
                 = Z.of_nat (List.length pre)).
  { unfold find_audio_stream. rewrite Hstreams, map_app. cbn [map].
    rewrite find_audio_from_app; [| |exact Hs].
    - rewrite length_map. unfold unsigned_to_int.
      rewrite Hstreams, length_app in Hlen. cbn [List.length] in Hlen.
      destruct (Z.leb_spec (0 + Z.of_nat (List.length pre)) C.INT_MAX); lia.
    - rewrite Forall_map. exact Hpre. }
  rewrite Hidx.
  destruct (Z.eqb_spec (Z.of_nat (List.length pre)) (-1)) as [Habs|_]; [lia|].
  destruct (Z.ltb_spec (Z.of_nat (List.length pre)) 0) as [Habs|_]; [lia|].
  rewrite Nat2Z.id, Hstreams, nth_error_app2, Nat.sub_diag by lia.
  cbn [nth_error bind].
  rewrite packet_loop_main_loop by assumption.
  unfold main, media_of, stream_end_time.
  cbn [time_base duration ticks_per_frame codec_time_base_den frames].
  destruct (main_loop (av_q2d (stream_time_base s)) ((-1)%float, EmptyString)
              (decoded_frames (Z.of_nat (List.length pre)) (packets v)))
    as [[last_silent_time output_file]|]; [|reflexivity].
  cbn [bind]. destruct (negb (last_silent_time =? -1)%float); [|reflexivity].
  destruct (insertTimestamp last_silent_time _); reflexivity.
Qed.

(** X9: a report is saved only if every set-up call succeeded and the file has
    an audio stream. *)
Theorem program_saved_only_after_setup (E : averrors) (v : video)
  (content : string) :
  program E v = Some (Saved content) ->
  open_input_ok v = true /\ stream_info_ok v = true /\
  codec_open_ok v = true /\ output_open_ok v = true /\
  Exists (fun s => is_audio (codec_type s) = true) (streams v).
Proof.
  unfold program.
  destruct (open_input_ok v); cbn [negb]; [|discriminate].
  destruct (stream_info_ok v); cbn [negb]; [|discriminate].
  destruct (Z.eqb_spec (find_audio_stream (map codec_type (streams v))) (-1))
    as [|Hidx]; [discriminate|].
  destruct (if find_audio_stream (map codec_type (streams v)) <? 0 then None
            else nth_error (streams v)
                   (Z.to_nat (find_audio_stream (map codec_type (streams v)))))
    as [stream|]; [|discriminate].
  cbn [bind].
  destruct (codec_open_ok v); cbn [negb]; [|discriminate].
  destruct (output_open_ok v); cbn [negb]; [|discriminate].
  intros _. repeat split.
  apply find_audio_from_found in Hidx. apply Exists_map in Hidx. exact Hidx.
Qed.

Lemma packet_loop_frames_example :
  (AVERROR_EAGAIN linux_errors < 0 /\ AVERROR_EOF linux_errors < 0) /\
  packet_loop linux_errors 1 1 ((-1)%float, EmptyString) (packets sample_video)
  = main_loop 1 ((-1)%float, EmptyString)
      (decoded_frames 1 (packets sample_video)) /\
  List.length (decoded_frames 1 (packets sample_video)) = 2%nat.
Proof.
  assert (H1 : AVERROR_EAGAIN linux_errors < 0) by (cbn; lia).
  assert (H2 : AVERROR_EOF linux_errors < 0) by (cbn; lia).
  split; [split; assumption|].
  split; [|reflexivity].
  exact (packet_loop_frames linux_errors 1 1%float _ (packets sample_video) H1 H2).
Defined.

Lemma program_analyses_first_audio_example :
  let pre := [ {| codec_type := AVMEDIA_TYPE_VIDEO;
                  stream_time_base := {| num := 1; den := 25 |};
                  stream_duration := 50 |} ] in
  let s := {| codec_type := AVMEDIA_TYPE_AUDIO;
              stream_time_base := {| num := 1; den := 1 |};
              stream_duration := 2 |} in
  let post := [ {| codec_type := AVMEDIA_TYPE_AUDIO;
                   stream_time_base := {| num := 1; den := 2 |};
                   stream_duration := 4 |} ] in
  streams sample_video = pre ++ s :: post /\
  program linux_errors sample_video
  = option_map Saved (main (media_of sample_video (Z.of_nat (List.length pre)) s)) /\
  program linux_errors sample_video
  = Some (Saved ("Silent time: 0m0s - 0m1s" ++ C.endl)%string).
Proof.
  intros pre s post.
  assert (Hs : streams sample_video = pre ++ s :: post) by reflexivity.
  split; [exact Hs|]. split; [|reflexivity].
  apply (program_analyses_first_audio linux_errors sample_video pre s post);
    try reflexivity; try exact Hs.
  - cbn. unfold C.INT_MAX. lia.
  - repeat constructor.
Defined.

Lemma program_saved_only_after_setup_example :
  program linux_errors sample_video
  = Some (Saved ("Silent time: 0m0s - 0m1s" ++ C.endl)%string) /\
  (open_input_ok sample_video = true /\ stream_info_ok sample_video = true /\
   codec_open_ok sample_video = true /\ output_open_ok sample_video = true /\
   Exists (fun s => is_audio (codec_type s) = true) (streams sample_video)).
Proof.
  assert (H : program linux_errors sample_video
              = Some (Saved ("Silent time: 0m0s - 0m1s" ++ C.endl)%string))
    by reflexivity.
  split; [exact H|].
  exact (program_saved_only_after_setup linux_errors sample_video _ H).
Defined.

End Program.

(** ** Exact arithmetic on dyadic numbers *)

Module FloatExact.

Import FloatFacts.

Lemma shl_pos V p : shl V (Zpos p) = Pos.iter xO V p.
Proof. reflexivity. Qed.

Lemma Zpos_iter_xO V p : Zpos (Pos.iter xO V p) = Zpos V * 2 ^ Zpos p.
Proof.
  induction p as [|p IH] using Pos.peano_ind.
  - simpl. lia.
  - rewrite Pos.iter_succ, Pos2Z.inj_succ, Z.pow_succ_r by lia.
    rewrite Pos2Z.inj_xO, IH. lia.
Qed.

Lemma Zpos_shl V k : 0 <= k -> Zpos (shl V k) = Zpos V * 2 ^ k.
Proof.
  intros Hk. destruct k as [|p|p]; try lia.
  - simpl. lia.
  - apply Zpos_iter_xO.
Qed.

Lemma digits_shl V k :
  0 <= k -> Zpos (digits2_pos (shl V k)) = Zpos (digits2_pos V) + k.
Proof.
  intros Hk. destruct k as [|p|p]; try lia.
  - simpl. lia.
  - rewrite shl_pos, digits2_pos_iter_xO. lia.
Qed.

Lemma shl_shl V a b : 0 <= a -> 0 <= b -> shl (shl V a) b = shl V (a + b).
Proof.
  intros Ha Hb.
  assert (H : Zpos (shl (shl V a) b) = Zpos (shl V (a + b))).
  { rewrite !Zpos_shl, Z.pow_add_r by lia. lia. }
  injection H as H. exact H.
Qed.

Lemma shl_align_le mx ex ex' :
  ex' <= ex -> shl_align mx ex ex' = (shl mx (ex - ex'), ex').
Proof.
  intros H. unfold shl_align. std_Z.
  destruct (ex' - ex) as [|p|p] eqn:E; try lia.
  - replace (ex - ex') with 0 by lia. simpl. f_equal. lia.
  - replace (ex - ex') with (Zpos p) by lia. reflexivity.
Qed.

Lemma shl_align_ge mx ex ex' :
  ex <= ex' -> shl_align mx ex ex' = (mx, ex).
Proof.
  intros H. unfold shl_align. std_Z.
  destruct (ex' - ex) as [|p|p] eqn:E; try lia; reflexivity.
Qed.

Lemma iter_pos_iter {A} (f : A -> A) p :
  forall x, iter_pos f p x = Pos.iter f x p.
Proof.
  induction p as [p IH|p IH|]; intros x; simpl.
  - rewrite !IH. rewrite <- !Pos.iter_swap. reflexivity.
  - rewrite !IH. reflexivity.
  - reflexivity.
Qed.

(** Shifting right what was shifted left gives the number back, exactly. *)
Lemma shr_iter_xO V p :
  iter_pos shr_1 p
    {| shr_m := Zpos (Pos.iter xO V p); shr_r := false; shr_s := false |}
  = {| shr_m := Zpos V; shr_r := false; shr_s := false |}.
Proof.
  rewrite iter_pos_iter.
  induction p as [|p IH] using Pos.peano_ind.
  - reflexivity.
  - rewrite (Pos.iter_succ p positive), (Pos.iter_succ_r p shr_record).
    simpl shr_1. exact IH.
Qed.

(** The result of rounding [V * 2^k * 2^e] when [V] has at most 53 bits:
    the canonical representation, with nothing lost. *)
Lemma binary_round_shl s V k e :
  0 <= k ->
  Zpos (digits2_pos V) <= 53 ->
  -1074 <= e + k + Zpos (digits2_pos V) - 53 <= 971 ->
  binary_round prec emax s (shl V k) e
  = S754_finite s (shl V (53 - Zpos (digits2_pos V)))
      (e + k + Zpos (digits2_pos V) - 53).
Proof.
  intros Hk Hd He. set (d := Zpos (digits2_pos V)) in *.
  unfold binary_round.
  replace (Z.pos (digits2_pos (shl V k))) with (d + k)
    by (symmetry; apply digits_shl; exact Hk).
  std_Z. rewrite fexp_normal by lia.
  destruct (Z.le_gt_cases (d + k) 53) as [Hle|Hgt].
  - rewrite shl_align_le by lia. rewrite shl_shl by lia.
    replace (k + (e - (d + k + e - 53))) with (53 - d) by lia.
    replace (d + k + e - 53) with (e + k + d - 53) by lia.
    apply binary_round_aux_canonical; [|lia].
    rewrite digits_shl by lia. fold d. lia.
  - rewrite shl_align_ge by lia.
    unfold binary_round_aux.
    assert (Hshr : shr_fexp prec emax (Zpos (shl V k)) e loc_Exact
                   = ({| shr_m := Zpos (shl V (53 - d));
                         shr_r := false; shr_s := false |},
                      e + k + d - 53)).
    { unfold shr_fexp. cbn [Zdigits2].
      replace (Z.pos (digits2_pos (shl V k))) with (d + k)
        by (symmetry; apply digits_shl; exact Hk).
      std_Z. rewrite fexp_normal by lia.
      destruct (d + k + e - 53 - e) as [|n|n] eqn:En; try lia.
      unfold shr. cbn [shr_record_of_loc]. f_equal; [|lia].
      replace (shl V k) with (Pos.iter xO (shl V (53 - d)) n).
      - apply shr_iter_xO.
      - rewrite <- shl_pos, shl_shl by lia. f_equal. lia. }
    rewrite Hshr. cbn [shr_m loc_of_shr_record round_nearest_even].
    rewrite shr_fexp_canonical; [| rewrite digits_shl by lia; fold d; lia | lia].
    cbn [shr_m]. unfold prec, emax. std_Z.
    destruct (Z.leb_spec (e + k + d - 53) (1024 - 53)); [reflexivity | lia].
Qed.

Lemma binary_round_canonical s V e :
  Zpos (digits2_pos V) <= 53 ->
  -1074 <= e + Zpos (digits2_pos V) - 53 <= 971 ->
  binary_round prec emax s V e
  = S754_finite s (shl V (53 - Zpos (digits2_pos V)))
      (e + Zpos (digits2_pos V) - 53).
Proof.
  intros Hd He.
  pose proof (binary_round_shl s V 0 e ltac:(lia) Hd ltac:(lia)) as H.
  cbn [shl] in H. rewrite H. f_equal. lia.
Qed.

(** The canonical representation of the integer [A] scaled by [2^e]. *)
Lemma binary_normalize_canonical A e :
  A <> 0 -> Z.abs A < 2 ^ 53 -> -1021 <= e <= 0 ->
  exists V, Z.abs A = Zpos V /\
    binary_normalize prec emax A e false
    = S754_finite (A <? 0) (shl V (53 - Zpos (digits2_pos V)))
        (e + Zpos (digits2_pos V) - 53).
Proof.
  intros HA Hlt He.
  destruct A as [|p|p]; [contradiction HA; reflexivity | |];
    exists p; (split; [reflexivity|]);
    pose proof (digits2_pos_le p 53 ltac:(lia) Hlt) as Hd;
    assert (0 < Zpos (digits2_pos p)) by lia;
    cbn [binary_normalize];
    rewrite binary_round_canonical by lia;
    reflexivity.
Qed.

Lemma canonical_valid s V e :
  Zpos (digits2_pos V) <= 53 -> -1074 <= e <= 971 ->
  valid_binary
    (S754_finite s (shl V (53 - Zpos (digits2_pos V))) e) = true.
Proof.
  intros Hd He. unfold SpecFloat.valid_binary, bounded, canonical_mantissa.
  rewrite digits_shl by lia.
  replace (Zpos (digits2_pos V) + (53 - Zpos (digits2_pos V))) with 53 by lia.
  unfold fexp, SpecFloat.emin, prec, emax. std_Z.
  apply andb_true_iff. split; [apply Z.eqb_eq | apply Z.leb_le]; lia.
Qed.

(** What a [dyadic] double is, seen through [Prim2SF]. *)
Lemma Prim2SF_dyadic A e :
  Z.abs A < 2 ^ 53 -> -1021 <= e <= 0 ->
  Prim2SF (dyadic A e) = binary_normalize prec emax A e false.
Proof.
  intros Hlt He. unfold dyadic.
  destruct (Z.eq_dec A 0) as [->|HA]; [reflexivity|].
  apply Prim2SF_SF2Prim.
  destruct (binary_normalize_canonical A e HA Hlt He) as (V & HV & ->).
  pose proof (digits2_pos_le V 53 ltac:(lia) ltac:(lia)) as Hd.
  assert (0 < Zpos (digits2_pos V)) by lia.
  apply canonical_valid; lia.
Qed.

Lemma Zneg_shl V k : 0 <= k -> Zneg (shl V k) = Zneg V * 2 ^ k.
Proof.
  intros Hk. rewrite <- !Pos2Z.opp_pos, Zpos_shl by exact Hk. lia.
Qed.

(** Moving a power of two between mantissa and exponent changes nothing. *)
Lemma binary_normalize_scale C k e :
  0 <= k -> Z.abs C < 2 ^ 53 -> -1021 <= e <= 0 ->
  binary_normalize prec emax (C * 2 ^ k) (e - k) false
  = binary_normalize prec emax C e false.
Proof.
  intros Hk Hlt He.
  destruct C as [|p|p]; [reflexivity | |];
    pose proof (digits2_pos_le p 53 ltac:(lia) Hlt) as Hd;
    assert (0 < Zpos (digits2_pos p)) by lia;
    [rewrite <- Zpos_shl by exact Hk | rewrite <- Zneg_shl by exact Hk];
    cbn [binary_normalize];
    rewrite binary_round_shl, binary_round_canonical by lia;
    f_equal; lia.
Qed.

Lemma cond_Zopp_abs A V : Z.abs A = Zpos V -> cond_Zopp (A <? 0) (Zpos V) = A.
Proof.
  intros H. destruct (Z.ltb_spec A 0); cbn [cond_Zopp]; lia.
Qed.

(** The mantissa of a canonical operand once aligned to the exponent [ez]. *)
Lemma aligned_mantissa A V e ez :
  Z.abs A = Zpos V -> Zpos (digits2_pos V) <= 53 ->
  ez <= e + Zpos (digits2_pos V) - 53 ->
  cond_Zopp (A <? 0)
    (Zpos (fst (shl_align (shl V (53 - Zpos (digits2_pos V)))
                  (e + Zpos (digits2_pos V) - 53) ez)))
  = A * 2 ^ (e - ez).
Proof.
  intros HV Hd Hez.
  rewrite shl_align_le by exact Hez. cbn [fst].
  rewrite shl_shl by lia.
  replace (53 - Zpos (digits2_pos V) + (e + Zpos (digits2_pos V) - 53 - ez))
    with (e - ez) by lia.
  rewrite Zpos_shl by lia.
  destruct (Z.ltb_spec A 0); cbn [cond_Zopp]; nia.
Qed.

(** Sums of dyadic numbers with a common exponent are exact as long as the
    integers stay below 2^53. *)
Lemma SFadd_dyadic A B e :
  Z.abs A < 2 ^ 53 -> Z.abs B < 2 ^ 53 -> Z.abs (A + B) < 2 ^ 53 ->
  -1021 <= e <= 0 ->
  SFadd prec emax (binary_normalize prec emax A e false)
                  (binary_normalize prec emax B e false)
  = binary_normalize prec emax (A + B) e false.
Proof.
  intros HA HB HAB He.
  destruct (Z.eq_dec A 0) as [->|HA0].
  - cbn [binary_normalize Z.add].
    destruct (Z.eq_dec B 0) as [->|HB0]; [reflexivity|].
    destruct (binary_normalize_canonical B e HB0 HB He) as (VB & _ & ->).
    reflexivity.
  - destruct (binary_normalize_canonical A e HA0 HA He) as (VA & HVA & EA).
    destruct (Z.eq_dec B 0) as [->|HB0].
    + rewrite Z.add_0_r, EA. reflexivity.
    + destruct (binary_normalize_canonical B e HB0 HB He) as (VB & HVB & EB).
      rewrite EA, EB. cbn [SFadd].
      pose proof (digits2_pos_le VA 53 ltac:(lia) ltac:(lia)) as HdA.
      pose proof (digits2_pos_le VB 53 ltac:(lia) ltac:(lia)) as HdB.
      set (ez := IntDef.Z.min (e + Zpos (digits2_pos VA) - 53)
                              (e + Zpos (digits2_pos VB) - 53)).
      assert (Hez : ez = Z.min (e + Zpos (digits2_pos VA) - 53)
                               (e + Zpos (digits2_pos VB) - 53)) by reflexivity.
      std_Z.
      rewrite (aligned_mantissa A VA e ez) by (try assumption; lia).
      rewrite (aligned_mantissa B VB e ez) by (try assumption; lia).
      replace (A * 2 ^ (e - ez) + B * 2 ^ (e - ez))
        with ((A + B) * 2 ^ (e - ez)) by ring.
      replace ez with (e - (e - ez)) at 2 by lia.
      apply binary_normalize_scale; lia.
Qed.

Lemma SFsub_dyadic A B e :
  Z.abs A < 2 ^ 53 -> Z.abs B < 2 ^ 53 -> Z.abs (A - B) < 2 ^ 53 ->
  -1021 <= e <= 0 ->
  SFsub prec emax (binary_normalize prec emax A e false)
                  (binary_normalize prec emax B e false)
  = binary_normalize prec emax (A - B) e false.
Proof.
  intros HA HB HAB He.
  destruct (Z.eq_dec B 0) as [->|HB0].
  - rewrite Z.sub_0_r. cbn [binary_normalize].
    destruct (Z.eq_dec A 0) as [->|HA0]; [reflexivity|].
    destruct (binary_normalize_canonical A e HA0 HA He) as (VA & _ & ->).
    reflexivity.
  - destruct (binary_normalize_canonical B e HB0 HB He) as (VB & HVB & EB).
    pose proof (digits2_pos_le VB 53 ltac:(lia) ltac:(lia)) as HdB.
    destruct (Z.eq_dec A 0) as [->|HA0].
    + rewrite EB. cbn [binary_normalize SFsub Z.sub Z.add].
      assert (HnB : Z.abs (- B) < 2 ^ 53) by lia.
      destruct (binary_normalize_canonical (- B) e ltac:(lia) HnB He)
        as (VB' & HVB' & ->).
      assert (VB' = VB) by lia. subst VB'.
      f_equal. destruct (Z.ltb_spec B 0), (Z.ltb_spec (- B) 0); try lia; reflexivity.
    + destruct (binary_normalize_canonical A e HA0 HA He) as (VA & HVA & EA).
      rewrite EA, EB. cbn [SFsub].
      pose proof (digits2_pos_le VA 53 ltac:(lia) ltac:(lia)) as HdA.
      set (ez := IntDef.Z.min (e + Zpos (digits2_pos VA) - 53)
                              (e + Zpos (digits2_pos VB) - 53)).
      assert (Hez : ez = Z.min (e + Zpos (digits2_pos VA) - 53)
                               (e + Zpos (digits2_pos VB) - 53)) by reflexivity.
      std_Z.
      rewrite (aligned_mantissa A VA e ez) by (try assumption; lia).
      rewrite (aligned_mantissa B VB e ez) by (try assumption; lia).
      replace (A * 2 ^ (e - ez) - B * 2 ^ (e - ez))
        with ((A - B) * 2 ^ (e - ez)) by ring.
      replace ez with (e - (e - ez)) at 2 by lia.
      apply binary_normalize_scale; lia.
Qed.

Lemma dyadic_add A B e :
  Z.abs A < 2 ^ 53 -> Z.abs B < 2 ^ 53 -> Z.abs (A + B) < 2 ^ 53 ->
  -1021 <= e <= 0 ->
  (dyadic A e + dyadic B e)%float = dyadic (A + B) e.
Proof.
  intros HA HB HAB He. apply Prim2SF_inj.
  rewrite add_spec, !Prim2SF_dyadic by assumption.
  apply SFadd_dyadic; assumption.
Qed.

Lemma dyadic_sub A B e :
  Z.abs A < 2 ^ 53 -> Z.abs B < 2 ^ 53 -> Z.abs (A - B) < 2 ^ 53 ->
  -1021 <= e <= 0 ->
  (dyadic A e - dyadic B e)%float = dyadic (A - B) e.
Proof.
  intros HA HB HAB He. apply Prim2SF_inj.
  rewrite sub_spec, !Prim2SF_dyadic by assumption.
  apply SFsub_dyadic; assumption.
Qed.

End FloatExact.

(** ** Exact products, quotients and signs *)

Module FloatMul.

Import FloatFacts FloatExact.

Lemma digits2_pos_upper p : Zpos p < 2 ^ Zpos (digits2_pos p).
Proof.
  induction p as [p IH|p IH|]; cbn [digits2_pos];
    rewrite ?Pos2Z.inj_succ, ?Z.pow_succ_r by lia; lia.
Qed.

Lemma digits2_pos_lower p : 2 ^ (Zpos (digits2_pos p) - 1) <= Zpos p.
Proof.
  induction p as [p IH|p IH|]; cbn [digits2_pos].
  - rewrite Pos2Z.inj_succ.
    replace (Z.succ (Zpos (digits2_pos p)) - 1)
      with (Z.succ (Zpos (digits2_pos p) - 1)) by lia.
    rewrite Z.pow_succ_r by lia. lia.
  - rewrite Pos2Z.inj_succ.
    replace (Z.succ (Zpos (digits2_pos p)) - 1)
      with (Z.succ (Zpos (digits2_pos p) - 1)) by lia.
    rewrite Z.pow_succ_r by lia. lia.
  - simpl. lia.
Qed.

Lemma digits2_pos_mul a b :
  Zpos (digits2_pos a) + Zpos (digits2_pos b) - 1
  <= Zpos (digits2_pos (a * b))
  <= Zpos (digits2_pos a) + Zpos (digits2_pos b).
Proof.
  pose proof (digits2_pos_upper a) as Hua.
  pose proof (digits2_pos_upper b) as Hub.
  pose proof (digits2_pos_lower a) as Hla.
  pose proof (digits2_pos_lower b) as Hlb.
  split.
  - pose proof (digits2_pos_upper (a * b)) as Hu.
    rewrite Pos2Z.inj_mul in Hu.
    assert (H : 2 ^ (Zpos (digits2_pos a) - 1 + (Zpos (digits2_pos b) - 1))
                < 2 ^ Zpos (digits2_pos (a * b))).
    { rewrite Z.pow_add_r by lia.
      assert (0 < 2 ^ (Zpos (digits2_pos a) - 1)) by (apply Z.pow_pos_nonneg; lia).
      assert (0 < 2 ^ (Zpos (digits2_pos b) - 1)) by (apply Z.pow_pos_nonneg; lia).
      nia. }
    apply Z.pow_lt_mono_r_iff in H; lia.
  - apply digits2_pos_le; [lia|].
    rewrite Pos2Z.inj_mul, Z.pow_add_r by lia. nia.
Qed.

(** With 53 bits or more in the mantissa there is nothing to align. *)
Lemma binary_round_aux_is_round s m e :
  53 <= Zpos (digits2_pos m) -> -1074 <= e ->
  binary_round_aux prec emax s (Zpos m) e loc_Exact
  = binary_round prec emax s m e.
Proof.
  intros Hd He. unfold binary_round.
  rewrite shl_align_ge; [reflexivity|].
  unfold fexp, SpecFloat.emin, prec, emax. std_Z. lia.
Qed.

Lemma shl_mul a b j k :
  0 <= j -> 0 <= k -> (shl a j * shl b k)%positive = shl (a * b) (j + k).
Proof.
  intros Hj Hk.
  assert (H : Zpos (shl a j * shl b k) = Zpos (shl (a * b) (j + k))).
  { rewrite Pos2Z.inj_mul, !Zpos_shl, Pos2Z.inj_mul, Z.pow_add_r by lia. ring. }
  injection H as H. exact H.
Qed.

(** Products of dyadic numbers are exact while the integer stays below
    2^53. *)
Lemma SFmul_dyadic A B e1 e2 :
  A <> 0 -> B <> 0 -> Z.abs (A * B) < 2 ^ 53 ->
  -400 <= e1 <= 0 -> -400 <= e2 <= 0 ->
  SFmul prec emax (binary_normalize prec emax A e1 false)
                  (binary_normalize prec emax B e2 false)
  = binary_normalize prec emax (A * B) (e1 + e2) false.
Proof.
  intros HA0 HB0 HAB He1 He2.
  assert (HA : Z.abs A < 2 ^ 53) by nia.
  assert (HB : Z.abs B < 2 ^ 53) by nia.
  destruct (binary_normalize_canonical A e1 HA0 HA ltac:(lia)) as (VA & HVA & ->).
  destruct (binary_normalize_canonical B e2 HB0 HB ltac:(lia)) as (VB & HVB & ->).
  destruct (binary_normalize_canonical (A * B) (e1 + e2) ltac:(nia) HAB ltac:(lia))
    as (V & HV & ->).
  assert (V = (VA * VB)%positive) by (apply Pos2Z.inj; rewrite Pos2Z.inj_mul; nia).
  subst V.
  pose proof (digits2_pos_le VA 53 ltac:(lia) ltac:(lia)) as HdA.
  pose proof (digits2_pos_le VB 53 ltac:(lia) ltac:(lia)) as HdB.
  pose proof (digits2_pos_le (VA * VB) 53 ltac:(lia) ltac:(lia)) as HdV.
  pose proof (digits2_pos_mul VA VB) as Hmul.
  assert (0 < Zpos (digits2_pos VA)) by lia.
  assert (0 < Zpos (digits2_pos VB)) by lia.
  set (dA := Zpos (digits2_pos VA)) in *.
  set (dB := Zpos (digits2_pos VB)) in *.
  set (dV := Zpos (digits2_pos (VA * VB))) in *.
  cbn [SFmul].
  change (PosDef.Pos.mul (shl VA (53 - dA)) (shl VB (53 - dB)))
    with (shl VA (53 - dA) * shl VB (53 - dB))%positive.
  rewrite shl_mul by lia. std_Z.
  rewrite binary_round_aux_is_round;
    [| rewrite digits_shl by lia; fold dV; lia | lia].
  rewrite binary_round_shl by (fold dV; lia).
  fold dV. f_equal.
  - destruct (Z.ltb_spec A 0), (Z.ltb_spec B 0), (Z.ltb_spec (A * B) 0);
      try reflexivity; nia.
  - lia.
Qed.

Lemma dyadic_mul A B e1 e2 :
  A <> 0 -> B <> 0 -> Z.abs (A * B) < 2 ^ 53 ->
  -400 <= e1 <= 0 -> -400 <= e2 <= 0 ->
  (dyadic A e1 * dyadic B e2)%float = dyadic (A * B) (e1 + e2).
Proof.
  intros HA0 HB0 HAB He1 He2. apply Prim2SF_inj.
  rewrite mul_spec, !Prim2SF_dyadic by nia.
  apply SFmul_dyadic; assumption.
Qed.

(** The quotient of [A * B * 2^e] by [B] is [A * 2^e], exactly. *)
Lemma SFdiv_dyadic A B e :
  A <> 0 -> 0 < B -> Z.abs (A * B) < 2 ^ 53 -> -900 <= e <= 0 ->
  SFdiv prec emax (binary_normalize prec emax (A * B) e false)
                  (binary_normalize prec emax B 0 false)
  = binary_normalize prec emax A e false.
Proof.
  intros HA0 HB HAB He.
  assert (HA : Z.abs A < 2 ^ 53) by nia.
  assert (HB53 : Z.abs B < 2 ^ 53) by nia.
  destruct (binary_normalize_canonical A e HA0 HA ltac:(lia)) as (VA & HVA & ->).
  destruct (binary_normalize_canonical B 0 ltac:(lia) HB53 ltac:(lia))
    as (VB & HVB & ->).
  destruct (binary_normalize_canonical (A * B) e ltac:(nia) HAB ltac:(lia))
    as (V & HV & ->).
  assert (V = (VA * VB)%positive) by (apply Pos2Z.inj; rewrite Pos2Z.inj_mul; nia).
  subst V.
  pose proof (digits2_pos_le VA 53 ltac:(lia) ltac:(lia)) as HdA.
  pose proof (digits2_pos_le VB 53 ltac:(lia) ltac:(lia)) as HdB.
  pose proof (digits2_pos_le (VA * VB) 53 ltac:(lia) ltac:(lia)) as HdV.
  pose proof (digits2_pos_mul VA VB) as Hmul.
  assert (0 < Zpos (digits2_pos VA)) by lia.
  assert (0 < Zpos (digits2_pos VB)) by lia.
  set (da := Zpos (digits2_pos VA)) in *.
  set (db := Zpos (digits2_pos VB)) in *.
  set (dp := Zpos (digits2_pos (VA * VB))) in *.
  replace (B <? 0) with false by (symmetry; apply Z.ltb_ge; lia).
  cbn [SFdiv]. unfold SFdiv_core_binary. cbn [Zdigits2].
  rewrite !digits_shl by lia. fold dp db.
  replace (dp + (53 - dp)) with 53 by lia.
  replace (db + (53 - db)) with 53 by lia.
  std_Z.
  replace (53 + (e + dp - 53) - (53 + (0 + db - 53))) with (e + dp - db) by lia.
  replace (e + dp - 53 - (0 + db - 53)) with (e + dp - db) by lia.
  rewrite fexp_normal by lia.
  rewrite Z.min_l by lia.
  replace (e + dp - db - (e + dp - db - 53)) with 53 by lia.
  cbv iota.
  change (IntDef.Z.shiftl (Zpos (shl (VA * VB) (53 - dp))) 53)
    with (Z.shiftl (Zpos (shl (VA * VB) (53 - dp))) 53).
  change (IntDef.Z.div_eucl) with Z.div_eucl.
  rewrite Z.shiftl_mul_pow2 by lia.
  rewrite !Zpos_shl by lia.
  set (k := 53 + db - dp).
  assert (Hk : 0 <= k) by (unfold k; lia).
  assert (Hnum : Zpos (VA * VB) * 2 ^ (53 - dp) * 2 ^ 53
                 = (Zpos VA * 2 ^ k) * (Zpos VB * 2 ^ (53 - db))).
  { assert (E : 2 ^ (53 - dp) * 2 ^ 53 = 2 ^ k * 2 ^ (53 - db)).
    { rewrite <- !Z.pow_add_r by lia. f_equal. unfold k. lia. }
    rewrite Pos2Z.inj_mul, <- Z.mul_assoc, E. ring. }
  rewrite Hnum.
  assert (Hden : 0 < Zpos VB * 2 ^ (53 - db)).
  { assert (0 < 2 ^ (53 - db)) by (apply Z.pow_pos_nonneg; lia). nia. }
  pose proof (Z_div_mult (Zpos VA * 2 ^ k) (Zpos VB * 2 ^ (53 - db))
                ltac:(lia)) as Hq.
  pose proof (Z_mod_mult (Zpos VA * 2 ^ k) (Zpos VB * 2 ^ (53 - db))) as Hr.
  unfold Z.div in Hq. unfold Z.modulo in Hr.
  destruct (Z.div_eucl _ _) as [q r]. subst q r.
  replace (new_location (Zpos VB * 2 ^ (53 - db)) 0) with loc_Exact
    by (unfold new_location, new_location_even, new_location_odd;
        destruct (Z.even _); reflexivity).
  rewrite <- Zpos_shl by exact Hk.
  rewrite binary_round_aux_is_round;
    [| rewrite digits_shl by exact Hk; fold da; unfold k; lia | lia].
  rewrite binary_round_shl by (fold da; unfold k; lia).
  fold da. f_equal.
  - destruct (Z.ltb_spec A 0), (Z.ltb_spec (A * B) 0); try reflexivity; nia.
  - unfold k. lia.
Qed.

Lemma dyadic_div A B e :
  A <> 0 -> 0 < B -> Z.abs (A * B) < 2 ^ 53 -> -900 <= e <= 0 ->
  (dyadic (A * B) e / dyadic B 0)%float = dyadic A e.
Proof.
  intros HA HB HAB He. apply Prim2SF_inj.
  rewrite div_spec, !Prim2SF_dyadic by nia.
  apply SFdiv_dyadic; assumption.
Qed.

Lemma dyadic_rescale C k e :
  0 <= k -> Z.abs C < 2 ^ 53 -> -1021 <= e <= 0 ->
  dyadic (C * 2 ^ k) (e - k) = dyadic C e.
Proof.
  intros Hk HC He. unfold dyadic.
  rewrite binary_normalize_scale by assumption. reflexivity.
Qed.

(** The square of a normalised sample is the dyadic [s^2 / 2^30]: the
    division by 32768 and the product lose nothing. *)
Lemma square_normalized_dyadic s :
  Z.abs s < 2 ^ 26 -> square_normalized s = dyadic (s * s) (-30).
Proof.
  intros Hs. destruct (Z.eq_dec s 0) as [->|Hne]; [reflexivity|].
  assert (Hq : (C.Z2double s / 32768)%float = dyadic s (-15)).
  { change (C.Z2double s) with (dyadic s 0).
    change 32768%float with (dyadic 32768 0).
    rewrite <- (dyadic_rescale s 15 0) by lia.
    change (2 ^ 15) with 32768. change (0 - 15) with (-15).
    apply dyadic_div; lia. }
  unfold square_normalized. rewrite Hq.
  change (-30) with (-15 + -15).
  apply dyadic_mul; try lia; nia.
Qed.

Lemma digits2_pos_mono a b :
  Zpos a <= Zpos b -> Zpos (digits2_pos a) <= Zpos (digits2_pos b).
Proof.
  intros H. apply digits2_pos_le; [lia|].
  pose proof (digits2_pos_upper b). lia.
Qed.

(** Dyadic numbers with a common exponent are ordered as their integers. *)
Lemma SFleb_dyadic A B e :
  0 <= A <= B -> B < 2 ^ 53 -> -1021 <= e <= 0 ->
  SFleb (binary_normalize prec emax A e false)
        (binary_normalize prec emax B e false) = true.
Proof.
  intros HAB HB He.
  destruct (Z.eq_dec B 0) as [->|HB0].
  - replace A with 0 by lia. reflexivity.
  - destruct (binary_normalize_canonical B e HB0 ltac:(lia) He)
      as (VB & HVB & ->).
    replace (B <? 0) with false by (symmetry; apply Z.ltb_ge; lia).
    destruct (Z.eq_dec A 0) as [->|HA0]; [reflexivity|].
    destruct (binary_normalize_canonical A e HA0 ltac:(lia) He)
      as (VA & HVA & ->).
    replace (A <? 0) with false by (symmetry; apply Z.ltb_ge; lia).
    pose proof (digits2_pos_mono VA VB ltac:(lia)) as Hmono.
    pose proof (digits2_pos_le VB 53 ltac:(lia) ltac:(lia)) as HdB.
    unfold SFleb. cbn [SFcompare]. std_Z.
    destruct (Z.compare_spec (e + Zpos (digits2_pos VA) - 53)
                             (e + Zpos (digits2_pos VB) - 53)) as [E|E|E];
      [|reflexivity|lia].
    change (Pos.compare_cont Eq ?a ?b) with (Pos.compare a b).
    assert (Ed : Zpos (digits2_pos VA) = Zpos (digits2_pos VB)) by lia.
    rewrite Ed.
    destruct (Pos.compare_spec (shl VA (53 - Zpos (digits2_pos VB)))
                               (shl VB (53 - Zpos (digits2_pos VB))))
      as [E'|E'|E']; try reflexivity.
    exfalso. apply Pos2Z.pos_lt_pos in E'.
    rewrite !Zpos_shl in E' by lia.
    assert (0 < 2 ^ (53 - Zpos (digits2_pos VB)))
      by (apply Z.pow_pos_nonneg; lia).
    nia.
Qed.

Lemma dyadic_le A B e :
  0 <= A <= B -> B < 2 ^ 53 -> -1021 <= e <= 0 ->
  (dyadic A e <=? dyadic B e)%float = true.
Proof.
  intros HAB HB He. rewrite leb_spec, !Prim2SF_dyadic by lia.
  apply SFleb_dyadic; assumption.
Qed.

End FloatMul.

(** ** The energy is computed without rounding in the sum *)

Module EnergyExact.

Import FloatFacts FloatExact.

(** The square of a normalised 16-bit sample is the dyadic [s^2 / 2^30]. *)
Lemma square_normalized_exact s :
  int16 s -> square_normalized s = dyadic (s * s) (-30).
Proof.
  intros Hs. apply FloatMul.square_normalized_dyadic.
  unfold int16 in Hs. lia.
Qed.

Lemma sum_squares_bound samples :
  Forall int16 samples ->
  0 <= sum_squares samples <= Z.of_nat (List.length samples) * 2 ^ 30.
Proof.
  induction 1 as [|s rest Hs _ IH]; [cbn; lia|].
  cbn [sum_squares fold_right List.length] in *.
  fold (sum_squares rest) in *. unfold int16 in Hs.
  rewrite Nat2Z.inj_succ. nia.
Qed.

Lemma fold_squares_exact samples :
  Forall int16 samples ->
  forall S,
    0 <= S -> S + sum_squares samples < 2 ^ 53 ->
    fold_left (fun acc s => acc + square_normalized s)%float samples
              (dyadic S (-30))
    = dyadic (S + sum_squares samples) (-30).
Proof.
  induction 1 as [|s rest Hs Hrest IH]; intros S HS Hlt.
  - cbn. rewrite Z.add_0_r. reflexivity.
  - cbn [fold_left sum_squares fold_right] in *. fold (sum_squares rest) in *.
    pose proof (sum_squares_bound rest Hrest) as Hb.
    assert (0 <= s * s) by nia.
    rewrite square_normalized_exact by exact Hs.
    rewrite dyadic_add by lia.
    rewrite IH by lia. f_equal. lia.
Qed.

Lemma energy_exact samples N :
  Forall int16 samples ->
  N = Z.of_nat (List.length samples) -> 1 <= N < 2 ^ 23 ->
  calculateEnergy samples N
  = Some (dyadic (sum_squares samples) (-30) / C.Z2double N)%float.
Proof.
  intros Hs HN Hrange.
  unfold calculateEnergy. rewrite Energy.energy_loop_fold by lia.
  cbn [bind skipn]. rewrite HN, Nat2Z.id, firstn_all.
  pose proof (sum_squares_bound samples Hs) as Hb.
  change 0%float with (dyadic 0 (-30)).
  rewrite fold_squares_exact by (try assumption; lia).
  reflexivity.
Qed.

(** A dyadic double has exactly the value [A * 2^e]. *)
Lemma dyadic_value A e :
  0 < A < 2 ^ 53 -> -1021 <= e <= 0 ->
  exists m ex,
    Prim2SF (dyadic A e) = S754_finite false m ex /\
    ex <= e /\ Zpos m = A * 2 ^ (e - ex).
Proof.
  intros HA He. rewrite Prim2SF_dyadic by lia.
  destruct (binary_normalize_canonical A e ltac:(lia) ltac:(lia) He)
    as (V & HV & ->).
  pose proof (digits2_pos_le V 53 ltac:(lia) ltac:(lia)) as Hd.
  assert (0 < Zpos (digits2_pos V)) by lia.
  eexists _, _. split; [|split].
  - f_equal. destruct (Z.ltb_spec A 0); [lia | reflexivity].
  - lia.
  - rewrite Zpos_shl by lia. replace A with (Zpos V) by lia. f_equal. f_equal. lia.
Qed.

(** X10: for a frame of fewer than 2^23 16-bit samples the sum of line 48 is
    exact: the loop leaves the double whose value is the integer sum of the
    squares over 2^30, and the only rounding of [calculateEnergy] is the
    division by the number of samples. *)
Theorem energy_sum_exact (samples : list Z) (N : Z) :
  Forall int16 samples ->
  N = Z.of_nat (List.length samples) -> 1 <= N < 2 ^ 23 ->
  exists total : float,
    calculateEnergy samples N = Some (total / C.Z2double N)%float /\
    ((sum_squares samples = 0 /\ total = 0%float) \/
     (exists m ex,
         Prim2SF total = S754_finite false m ex /\
         ex <= -30 /\
         Zpos m = sum_squares samples * 2 ^ (-30 - ex))).
Proof.
  intros Hs HN Hrange.
  exists (dyadic (sum_squares samples) (-30)).
  split; [apply energy_exact; assumption|].
  pose proof (sum_squares_bound samples Hs) as Hb.
  destruct (Z.eq_dec (sum_squares samples) 0) as [E|E].
  - left. rewrite E. split; reflexivity.
  - right. apply dyadic_value; lia.
Qed.

Lemma energy_sum_exact_example :
  let samples := [16384; -16384; 3; -1] in
  (Forall int16 samples /\ 4 = Z.of_nat (List.length samples) /\ 1 <= 4 < 2 ^ 23) /\
  sum_squares samples = 536870922 /\
  exists total : float,
    calculateEnergy samples 4 = Some (total / C.Z2double 4)%float /\
    ((sum_squares samples = 0 /\ total = 0%float) \/
     (exists m ex,
         Prim2SF total = S754_finite false m ex /\
         ex <= -30 /\
         Zpos m = sum_squares samples * 2 ^ (-30 - ex))).
Proof.
  intros samples.
  assert (H1 : Forall int16 samples) by (repeat constructor; unfold int16; lia).
  assert (H2 : 4 = Z.of_nat (List.length samples)) by reflexivity.
  assert (H3 : 1 <= 4 < 2 ^ 23) by lia.
  split; [repeat split; try assumption; lia|].
  split; [reflexivity|].
  exact (energy_sum_exact samples 4 H1 H2 H3).
Defined.

Lemma sum_squares_permutation l l' :
  Permutation l l' -> sum_squares l = sum_squares l'.
Proof.
  unfold sum_squares. induction 1; simpl; lia.
Qed.

(** X11: the energy of a frame of fewer than 2^23 16-bit samples does not depend
    on the order of the samples. *)
Theorem energy_order_independent (samples samples' : list Z) (N : Z) :
  Forall int16 samples ->
  N = Z.of_nat (List.length samples) -> 1 <= N < 2 ^ 23 ->
  Permutation samples samples' ->
  calculateEnergy samples' N = calculateEnergy samples N.
Proof.
  intros Hs HN Hrange Hperm.
  rewrite (energy_exact samples N) by assumption.
  rewrite (energy_exact samples' N).
  - rewrite (sum_squares_permutation _ _ Hperm). reflexivity.
  - eapply Permutation_Forall; eassumption.
  - rewrite <- (Permutation_length Hperm). exact HN.
  - exact Hrange.
Qed.

Lemma energy_order_independent_example :
  let samples := [100; -20000; 7] in
  let samples' := [7; 100; -20000] in
  (Forall int16 samples /\ 3 = Z.of_nat (List.length samples) /\
   1 <= 3 < 2 ^ 23 /\ Permutation samples samples') /\
  calculateEnergy samples' 3 = calculateEnergy samples 3.
Proof.
  intros samples samples'.
  assert (H1 : Forall int16 samples) by (repeat constructor; unfold int16; lia).
  assert (H2 : 3 = Z.of_nat (List.length samples)) by reflexivity.
  assert (H3 : 1 <= 3 < 2 ^ 23) by lia.
  assert (H4 : Permutation samples samples').
  { unfold samples, samples'.
    apply Permutation_sym.
    apply (Permutation_cons_app [100; -20000] [] 7). apply Permutation_refl. }
  split; [repeat split; try assumption; lia|].
  exact (energy_order_independent samples samples' 3 H1 H2 H3 H4).
Defined.

End EnergyExact.

(** ** The sign and the range of the energy *)

Module EnergyRange.

Import FloatFacts FloatExact EnergyExact.









Lemma sum_squares_constant samples c :
  Forall (fun s => Z.abs s = c) samples ->
  sum_squares samples = c * c * Z.of_nat (List.length samples).
Proof.
  induction 1 as [|s rest Hs _ IH]; [cbn; lia|].
  cbn [sum_squares fold_right List.length]. fold (sum_squares rest).
  rewrite IH, Nat2Z.inj_succ. nia.
Qed.

(** The threshold as an amplitude: [c^2 / 2^30 <= THRESHOLD] exactly when
    [c <= 16868]. *)
Lemma magnitude_silent c :
  0 <= c <= 32768 -> is_silent (dyadic (c * c) (-30)) = (c <=? 16868).
Proof.
  intros Hc. unfold is_silent.
  destruct (Z.leb_spec c 16868) as [Hle|Hgt].
  - apply (leb_trans _ (dyadic (16868 * 16868) (-30)));
      [apply FloatMul.dyadic_le; nia | reflexivity].
  - apply FloatOrder.ltb_not_leb.
    apply (FloatOrder.ltb_leb_trans _ (dyadic (16869 * 16869) (-30)));
      [reflexivity | apply FloatMul.dyadic_le; nia].
Qed.

(** X13: a frame whose samples all have the magnitude [c] has the energy
    [(c / 32768)^2] exactly, whatever its length, and it is silent exactly
    when [c <= 16868]: the threshold 0.265 is an amplitude of 16868. *)
Theorem energy_constant_magnitude (samples : list Z) (N c : Z) :
  Forall int16 samples ->
  Forall (fun s => Z.abs s = c) samples ->
  N = Z.of_nat (List.length samples) -> 1 <= N < 2 ^ 23 ->
  calculateEnergy samples N = Some (dyadic (c * c) (-30)) /\
  is_silent (dyadic (c * c) (-30)) = (c <=? 16868).
Proof.
  intros H16 Hc HN Hrange.
  assert (Hcr : 0 <= c <= 32768).
  { destruct samples as [|s rest]; [cbn in HN; lia|].
    inversion H16 as [|? ? Hs _]; inversion Hc as [|? ? Hs' _]; subst.
    unfold int16 in Hs. lia. }
  split.
  - rewrite (energy_exact samples N) by assumption.
    rewrite (sum_squares_constant samples c Hc), <- HN. f_equal.
    destruct (Z.eq_dec c 0) as [->|Hne].
    + apply (zero_div_Z2double N). lia.
    + change (C.Z2double N) with (dyadic N 0).
      apply FloatMul.dyadic_div; nia.
  - apply magnitude_silent. exact Hcr.
Qed.

Lemma energy_constant_magnitude_example :
  (Forall int16 [-32768; -32768; -32768] /\
   Forall (fun s => Z.abs s = 32768) [-32768; -32768; -32768] /\
   3 = Z.of_nat (List.length [-32768; -32768; -32768]) /\ 1 <= 3 < 2 ^ 23) /\
  (calculateEnergy [-32768; -32768; -32768] 3
   = Some (dyadic (32768 * 32768) (-30)) /\
   is_silent (dyadic (32768 * 32768) (-30)) = (32768 <=? 16868)) /\
  dyadic (32768 * 32768) (-30) = 1%float.
Proof.
  assert (H0 : Forall int16 [-32768; -32768; -32768])
    by (repeat constructor; unfold int16; lia).
  assert (H1 : Forall (fun s => Z.abs s = 32768) [-32768; -32768; -32768])
    by (repeat constructor).
  assert (H2 : 3 = Z.of_nat (List.length [-32768; -32768; -32768]))
    by reflexivity.
  assert (H3 : 1 <= 3 < 2 ^ 23) by lia.
  split; [repeat split; try assumption; lia|].
  split; [|reflexivity].
  exact (energy_constant_magnitude _ 3 32768 H0 H1 H2 H3).
Defined.


End EnergyRange.

(** ** The line written for whole seconds *)

Module WholeSeconds.

Import FloatFacts FloatExact.

Lemma all_from_spec check n :
  forall i, all_from check i n = true ->
            forall j, i <= j < i + Z.of_nat n -> check j = true.
Proof.
  induction n as [|n IH]; intros i H j Hj; [lia|].
  cbn [all_from] in H. destruct (check i) eqn:Ei; [|discriminate].
  destruct (Z.eq_dec j i) as [->|Hne]; [exact Ei|].
  apply (IH (i + 1) H). lia.
Qed.

Lemma products_exact_checked :
  all_from product_exact 0 (Z.to_nat 1440) = true.
Proof. vm_compute. reflexivity. Qed.

Lemma product_of_minutes m :
  0 <= m < 1440 ->
  C.float_to_double (C.mulf (C.int_to_float m) C.sixty_f)
  = C.Z2double (m * 60).
Proof.
  intros Hm. apply FloatAxioms.Leibniz.eqb_spec.
  apply (all_from_spec product_exact _ _ products_exact_checked). lia.
Qed.

(** Converting an integer to [double] and back to an integer is the
    identity below 2^53. *)
Lemma truncate_Z2double z :
  Z.abs z < 2 ^ 53 -> C.truncate (C.Z2double z) = Some z.
Proof.
  intros Hz. unfold C.truncate.
  change (C.Z2double z) with (dyadic z 0).
  rewrite Prim2SF_dyadic by lia.
  destruct (Z.eq_dec z 0) as [->|Hne]; [reflexivity|].
  destruct (binary_normalize_canonical z 0 Hne Hz ltac:(lia)) as (V & HV & ->).
  pose proof (digits2_pos_le V 53 ltac:(lia) ltac:(lia)) as Hd.
  f_equal.
  replace (Z.shiftl (Zpos (shl V (53 - Zpos (digits2_pos V))))
                    (0 + Zpos (digits2_pos V) - 53))
    with (Zpos V).
  - apply cond_Zopp_abs. exact HV.
  - rewrite Zpos_shl by lia.
    replace (0 + Zpos (digits2_pos V) - 53)
      with (- (53 - Zpos (digits2_pos V))) by lia.
    rewrite Z.shiftl_opp_r, Z.shiftr_div_pow2 by lia.
    symmetry. apply Z_div_mult.
    assert (0 < 2 ^ (53 - Zpos (digits2_pos V))) by (apply Z.pow_pos_nonneg; lia).
    lia.
Qed.

Lemma double_to_int_Z2double z :
  C.INT_MIN <= z <= C.INT_MAX -> C.double_to_int (C.Z2double z) = Some z.
Proof.
  intros Hz. unfold C.double_to_int.
  rewrite truncate_Z2double by (unfold C.INT_MIN, C.INT_MAX in Hz; lia).
  cbn [bind]. unfold C.in_int.
  destruct (Z.leb_spec C.INT_MIN z), (Z.leb_spec z C.INT_MAX); try lia.
  reflexivity.
Qed.

(** *** The order of doubles, read on their mantissas *)

Lemma canonical_bounds m e :
  canonical_mantissa prec emax m e = true ->
  -1074 <= e /\ Zpos (digits2_pos m) <= 53 /\
  (e = -1074 \/ Zpos (digits2_pos m) = 53).
Proof.
  unfold canonical_mantissa, fexp, SpecFloat.emin, prec, emax. std_Z.
  intros H. apply Z.eqb_eq in H. lia.
Qed.

Lemma scaled_lt a b P D :
  a < 2 ^ 53 -> 2 ^ 52 <= b -> 2 ^ 1 <= D -> 0 < P -> a * P < b * (P * D).
Proof.
  change (2 ^ 53) with (2 * 2 ^ 52). change (2 ^ 1) with 2.
  assert (HK : 0 < 2 ^ 52) by reflexivity.
  revert HK. generalize (2 ^ 52). intros K HK Ha Hb HD HP.
  apply Z.lt_le_trans with (2 * K * P).
  - apply Z.mul_lt_mono_pos_r; assumption.
  - replace (b * (P * D)) with (b * D * P) by ring.
    apply Z.mul_le_mono_nonneg_r; [lia|].
    rewrite (Z.mul_comm 2 K).
    apply Z.mul_le_mono_nonneg; lia.
Qed.

(** Two positive doubles compare as the integers [m * 2^(e + 1074)]. *)
Lemma SFcompare_canonical m1 e1 m2 e2 :
  canonical_mantissa prec emax m1 e1 = true ->
  canonical_mantissa prec emax m2 e2 = true ->
  SFcompare (S754_finite false m1 e1) (S754_finite false m2 e2)
  = Some (Zpos m1 * 2 ^ (e1 + 1074) ?= Zpos m2 * 2 ^ (e2 + 1074)).
Proof.
  intros H1 H2.
  destruct (canonical_bounds _ _ H1) as (He1 & Hd1 & Hn1).
  destruct (canonical_bounds _ _ H2) as (He2 & Hd2 & Hn2).
  pose proof (FloatMul.digits2_pos_upper m1) as Hu1.
  pose proof (FloatMul.digits2_pos_upper m2) as Hu2.
  pose proof (FloatMul.digits2_pos_lower m1) as Hl1.
  pose proof (FloatMul.digits2_pos_lower m2) as Hl2.
  assert (Hp1 : Zpos m1 < 2 ^ 53).
  { apply Z.lt_le_trans with (1 := Hu1). apply Z.pow_le_mono_r; lia. }
  assert (Hp2 : Zpos m2 < 2 ^ 53).
  { apply Z.lt_le_trans with (1 := Hu2). apply Z.pow_le_mono_r; lia. }
  cbn [SFcompare]. f_equal. std_Z.
  destruct (Z.compare_spec e1 e2) as [E|E|E]; symmetry.
  - subst e2.
    assert (0 < 2 ^ (e1 + 1074)) by (apply Z.pow_pos_nonneg; lia).
    rewrite <- Zmult_compare_compat_r by lia. reflexivity.
  - apply Z.compare_lt_iff.
    assert (Hd : Zpos (digits2_pos m2) = 53) by lia.
    rewrite Hd in Hl2. change (2 ^ (53 - 1)) with (2 ^ 52) in Hl2.
    replace (e2 + 1074) with ((e1 + 1074) + (e2 - e1)) by lia.
    rewrite (Z.pow_add_r 2 (e1 + 1074) (e2 - e1)) by lia.
    assert (0 < 2 ^ (e1 + 1074)) by (apply Z.pow_pos_nonneg; lia).
    assert (HD : 2 ^ 1 <= 2 ^ (e2 - e1)) by (apply Z.pow_le_mono_r; lia).
    apply (scaled_lt _ _ _ _ Hp1 Hl2 HD). assumption.
  - apply Z.compare_gt_iff.
    assert (Hd : Zpos (digits2_pos m1) = 53) by lia.
    rewrite Hd in Hl1. change (2 ^ (53 - 1)) with (2 ^ 52) in Hl1.
    replace (e1 + 1074) with ((e2 + 1074) + (e1 - e2)) by lia.
    rewrite (Z.pow_add_r 2 (e2 + 1074) (e1 - e2)) by lia.
    assert (0 < 2 ^ (e2 + 1074)) by (apply Z.pow_pos_nonneg; lia).
    assert (HD : 2 ^ 1 <= 2 ^ (e1 - e2)) by (apply Z.pow_le_mono_r; lia).
    apply (scaled_lt _ _ _ _ Hp2 Hl1 HD). assumption.
Qed.

(** The double of a positive integer, as a canonical mantissa. *)
Lemma Z2double_canonical q :
  0 < q < 2 ^ 53 ->
  exists m e,
    binary_normalize prec emax q 0 false = S754_finite false m e /\
    canonical_mantissa prec emax m e = true /\
    Zpos m * 2 ^ (e + 1074) = q * 2 ^ 1074.
Proof.
  intros Hq.
  destruct (binary_normalize_canonical q 0 ltac:(lia) ltac:(lia) ltac:(lia))
    as (V & HV & E).
  pose proof (digits2_pos_le V 53 ltac:(lia) ltac:(lia)) as Hd.
  assert (Hd0 : 0 < Zpos (digits2_pos V)) by lia.
  exists (shl V (53 - Zpos (digits2_pos V))), (0 + Zpos (digits2_pos V) - 53).
  split; [|split].
  - rewrite E. destruct (Z.ltb_spec q 0); [lia|reflexivity].
  - pose proof (canonical_valid false V (0 + Zpos (digits2_pos V) - 53)
                  Hd ltac:(lia)) as Hv.
    unfold SpecFloat.valid_binary, bounded in Hv.
    apply andb_true_iff in Hv. apply Hv.
  - rewrite Zpos_shl by lia.
    replace (Zpos V) with q by lia.
    rewrite <- Z.mul_assoc, <- Z.pow_add_r by lia.
    do 2 f_equal. lia.
Qed.

(** A double in [[q, q + 1)] is floored and converted to the [int] [q]. *)
Lemma floor_between q x :
  0 <= q < C.INT_MAX ->
  between (C.Z2double q) x = true ->
  C.double_to_int (C.floor x) = Some q.
Proof.
  intros Hq H. unfold between in H. apply andb_true_iff in H.
  destruct H as [Hle Hlt].
  assert (Hmax : C.INT_MAX = 2147483647) by reflexivity.
  change (C.Z2double q) with (dyadic q 0) in Hle, Hlt.
  change 1%float with (dyadic 1 0) in Hlt.
  rewrite dyadic_add in Hlt by lia.
  rewrite leb_spec in Hle. rewrite ltb_spec in Hlt.
  rewrite Prim2SF_dyadic in Hle, Hlt by lia.
  destruct (Z2double_canonical (q + 1) ltac:(lia)) as (m1 & e1 & E1 & C1 & V1).
  rewrite E1 in Hlt. clear E1.
  pose proof (Prim2SF_valid x) as Hv.
  assert (Hx : match Prim2SF x with
               | S754_zero _ => q = 0
               | S754_finite s m e =>
                   s = false /\
                   q * 2 ^ 1074 <= Zpos m * 2 ^ (e + 1074) < (q + 1) * 2 ^ 1074
               | _ => False
               end).
  { destruct (Z.eq_dec q 0) as [->|Hne].
    - destruct (Prim2SF x) as [s|s| |s m e];
        try reflexivity; try (destruct s; discriminate); try discriminate.
      unfold SpecFloat.valid_binary, bounded in Hv.
      apply andb_true_iff in Hv. destruct Hv as [Hc _].
      destruct s; [discriminate|]. split; [reflexivity|].
      unfold SFltb in Hlt. rewrite (SFcompare_canonical _ _ _ _ Hc C1) in Hlt.
      rewrite V1 in Hlt.
      destruct (Z.compare_spec (Zpos m * 2 ^ (e + 1074)) ((0 + 1) * 2 ^ 1074));
        try discriminate.
      split; [|assumption].
      destruct (canonical_bounds _ _ Hc) as (He & _).
      assert (0 < 2 ^ (e + 1074)) by (apply Z.pow_pos_nonneg; lia). nia.
    - destruct (Z2double_canonical q ltac:(lia)) as (m0 & e0 & E0 & C0 & V0).
      rewrite E0 in Hle. clear E0.
      destruct (Prim2SF x) as [s|s| |s m e];
        try (destruct s; discriminate); try discriminate.
      unfold SpecFloat.valid_binary, bounded in Hv.
      apply andb_true_iff in Hv. destruct Hv as [Hc _].
      destruct s; [discriminate|]. split; [reflexivity|].
      unfold SFltb in Hlt. rewrite (SFcompare_canonical _ _ _ _ Hc C1) in Hlt.
      unfold SFleb in Hle. rewrite (SFcompare_canonical _ _ _ _ C0 Hc) in Hle.
      rewrite V1 in Hlt. rewrite V0 in Hle.
      destruct (Z.compare_spec (Zpos m * 2 ^ (e + 1074)) ((q + 1) * 2 ^ 1074));
        try discriminate.
      destruct (Z.compare_spec (q * 2 ^ 1074) (Zpos m * 2 ^ (e + 1074)));
        try discriminate; lia. }
  unfold C.floor.
  destruct (Prim2SF x) as [s|s| |s m e] eqn:Ex; try contradiction.
  - subst q. unfold C.double_to_int, C.truncate. rewrite Ex. reflexivity.
  - destruct Hx as (-> & Hlo & Hhi).
    unfold SpecFloat.valid_binary, bounded in Hv.
    apply andb_true_iff in Hv. destruct Hv as [Hc _].
    destruct (canonical_bounds _ _ Hc) as (He & _).
    assert (Hin : C.in_int q = true).
    { unfold C.in_int, C.INT_MIN.
      apply andb_true_iff; split; apply Z.leb_le; lia. }
    destruct (Z.leb_spec 0 e) as [He0|He0].
    + unfold C.double_to_int, C.truncate. rewrite Ex. cbn [bind cond_Zopp].
      rewrite Z.shiftl_mul_pow2 by lia.
      replace (e + 1074) with (1074 + e) in Hlo, Hhi by lia.
      rewrite Z.pow_add_r in Hlo, Hhi by lia.
      assert (0 < 2 ^ 1074) by (apply Z.pow_pos_nonneg; lia).
      replace (Zpos m * 2 ^ e) with q by nia.
      rewrite Hin. reflexivity.
    + cbn [cond_Zopp].
      replace (Z.shiftl (Zpos m) e) with q.
      * apply double_to_int_Z2double. unfold C.INT_MIN. lia.
      * replace e with (- (- e)) by lia.
        rewrite Z.shiftl_opp_r, Z.shiftr_div_pow2 by lia.
        assert (E2 : 2 ^ 1074 = 2 ^ (e + 1074) * 2 ^ (- e)).
        { rewrite <- Z.pow_add_r by lia. f_equal. lia. }
        rewrite E2 in Hlo, Hhi.
        assert (0 < 2 ^ (e + 1074)) by (apply Z.pow_pos_nonneg; lia).
        assert (0 < 2 ^ (- e)) by (apply Z.pow_pos_nonneg; lia).
        assert (q * 2 ^ (- e) <= Zpos m).
        { apply (Z.mul_le_mono_pos_r _ _ (2 ^ (e + 1074))); [assumption|].
          replace (q * 2 ^ (- e) * 2 ^ (e + 1074))
            with (q * (2 ^ (e + 1074) * 2 ^ (- e))) by ring.
          exact Hlo. }
        assert (Zpos m < (q + 1) * 2 ^ (- e)).
        { apply (Z.mul_lt_mono_pos_r (2 ^ (e + 1074))); [assumption|].
          replace ((q + 1) * 2 ^ (- e) * 2 ^ (e + 1074))
            with ((q + 1) * (2 ^ (e + 1074) * 2 ^ (- e))) by ring.
          exact Hhi. }
        apply Z.div_unique with (Zpos m - q * 2 ^ (- e)); [|ring].
        left. lia.
Qed.

(** *** The minutes of a whole second *)

Lemma Z2double_add a b :
  Z.abs a < 2 ^ 53 -> Z.abs b < 2 ^ 53 -> Z.abs (a + b) < 2 ^ 53 ->
  (C.Z2double a + C.Z2double b)%float = C.Z2double (a + b).
Proof. intros Ha Hb Hab. apply (dyadic_add a b 0); lia. Qed.

Lemma minute_loop_spec q n :
  forall a, 0 <= a -> a + Z.of_nat n < 2 ^ 53 ->
  minute_loop (C.Z2double a) q n = true ->
  forall b, a <= b < a + Z.of_nat n ->
  between q (C.Z2double b / 60) = true.
Proof.
  induction n as [|n IH]; intros a Ha Hn H b Hb; [lia|].
  cbn [minute_loop] in H. apply andb_true_iff in H. destruct H as [H0 H].
  destruct (Z.eq_dec b a) as [->|Hne]; [exact H0|].
  change 1%float with (C.Z2double 1) in H.
  rewrite Z2double_add in H by lia.
  apply (IH (a + 1)); try assumption; lia.
Qed.

Lemma minutes_loop_spec n :
  forall q, 0 <= q -> 60 * (q + Z.of_nat n) < 2 ^ 53 ->
  minutes_loop (C.Z2double (60 * q)) (C.Z2double q) n = true ->
  forall a, 60 * q <= a < 60 * (q + Z.of_nat n) ->
  between (C.Z2double (a / 60)) (C.Z2double a / 60) = true.
Proof.
  induction n as [|n IH]; intros q Hq Hn H a Ha; [lia|].
  cbn [minutes_loop] in H. apply andb_true_iff in H. destruct H as [H0 H].
  destruct (Z_lt_le_dec a (60 * q + 60)) as [Hlt|Hge].
  - replace (a / 60) with q.
    + apply (minute_loop_spec _ 60 (60 * q)); try assumption; lia.
    + apply Z.div_unique with (a - 60 * q); lia.
  - change 60%float with (C.Z2double 60) in H at 1.
    change 1%float with (C.Z2double 1) in H.
    rewrite !Z2double_add in H by lia.
    replace (60 * q + 60) with (60 * (q + 1)) in H by ring.
    apply (IH (q + 1)); try assumption; lia.
Qed.

Lemma minutes_checked : minutes_loop 0 0 1440 = true.
Proof. vm_compute. reflexivity. Qed.

Lemma minutes_of_whole_second a :
  0 <= a < 86400 ->
  C.double_to_int (C.floor (C.Z2double a / 60)) = Some (a / 60).
Proof.
  intros Ha.
  assert (Hq : 0 <= a / 60 < 1440).
  { split; [apply Z.div_pos; lia | apply Z.div_lt_upper_bound; lia]. }
  apply floor_between; [unfold C.INT_MAX; lia|].
  apply (minutes_loop_spec 1440 0); try lia.
  exact minutes_checked.
Qed.

Lemma remainder_whole t m :
  Z.abs t < 2 ^ 52 -> 0 <= m < 1440 ->
  remainder (C.Z2double t) m = C.Z2double (t - m * 60).
Proof.
  intros Ht Hm. unfold remainder. rewrite product_of_minutes by exact Hm.
  change (C.Z2double t) with (dyadic t 0).
  change (C.Z2double (m * 60)) with (dyadic (m * 60) 0).
  change (C.Z2double (t - m * 60)) with (dyadic (t - m * 60) 0).
  apply dyadic_sub; lia.
Qed.

(** X14: for a start and an end at whole seconds within 24 hours the four numbers
    of the line are [a / 60], [a mod 60], [b / 60] and [b - 60 * (a / 60)]:
    the end is shown with seconds below 60 only when it lies in the minute
    of the start. *)
Theorem whole_seconds_line (a b : Z) :
  0 <= a < 86400 -> 0 <= b < 86400 ->
  split_timestamp (C.Z2double a) (C.Z2double b)
  = Some (Fields (a / 60) (a mod 60) (b / 60) (b - 60 * (a / 60))) /\
  insertTimestamp (C.Z2double a) (C.Z2double b)
  = Some (render (Fields (a / 60) (a mod 60) (b / 60) (b - 60 * (a / 60)))) /\
  (b - 60 * (a / 60) = b mod 60 <-> a / 60 = b / 60).
Proof.
  intros Ha Hb.
  assert (Hqa : 0 <= a / 60 < 1440).
  { split; [apply Z.div_pos; lia | apply Z.div_lt_upper_bound; lia]. }
  assert (Hqb : 0 <= b / 60 < 1440).
  { split; [apply Z.div_pos; lia | apply Z.div_lt_upper_bound; lia]. }
  pose proof (Z.div_mod a 60 ltac:(lia)) as Hda.
  pose proof (Z.mod_pos_bound a 60 ltac:(lia)) as Hma.
  pose proof (Z.div_mod b 60 ltac:(lia)) as Hdb.
  pose proof (Z.mod_pos_bound b 60 ltac:(lia)) as Hmb.
  assert (E : split_timestamp (C.Z2double a) (C.Z2double b)
              = Some (Fields (a / 60) (a mod 60) (b / 60) (b - 60 * (a / 60)))).
  { unfold split_timestamp.
    rewrite (minutes_of_whole_second a Ha). cbn [bind].
    rewrite remainder_whole by lia.
    rewrite double_to_int_Z2double by (unfold C.INT_MIN, C.INT_MAX; lia).
    cbn [bind].
    rewrite (minutes_of_whole_second b Hb). cbn [bind].
    rewrite remainder_whole by lia.
    rewrite double_to_int_Z2double by (unfold C.INT_MIN, C.INT_MAX; lia).
    cbn [bind]. do 2 f_equal; lia. }
  split; [exact E|]. split.
  - unfold insertTimestamp. rewrite E. reflexivity.
  - lia.
Qed.

Lemma whole_seconds_line_example :
  (0 <= 45 < 86400 /\ 0 <= 130 < 86400) /\
  (split_timestamp (C.Z2double 45) (C.Z2double 130)
   = Some (Fields (45 / 60) (45 mod 60) (130 / 60) (130 - 60 * (45 / 60))) /\
   insertTimestamp (C.Z2double 45) (C.Z2double 130)
   = Some (render (Fields (45 / 60) (45 mod 60) (130 / 60)
                          (130 - 60 * (45 / 60)))) /\
   (130 - 60 * (45 / 60) = 130 mod 60 <-> 45 / 60 = 130 / 60)) /\
  insertTimestamp 45 130 = Some ("Silent time: 0m45s - 2m130s" ++ C.endl)%string.
Proof.
  assert (H1 : 0 <= 45 < 86400) by lia.
  assert (H2 : 0 <= 130 < 86400) by lia.
  split; [split; assumption|].
  split; [exact (whole_seconds_line 45 130 H1 H2) | reflexivity].
Defined.

End WholeSeconds.

(** ** Times that are not finite *)

Module NonFinite.

Import FloatFacts.





End NonFinite.

(** ** Where the end points come from; frames larger than their buffer *)

Module Provenance.

Import Coverage.

Lemma track_from_endpoints feed :
  forall last end_time iv,
    In iv (track_from last feed end_time) ->
    ((is_open last = true /\ fst iv = last) \/
     (exists e, In (fst iv, e) feed /\ is_silent e = true)) /\
    ((exists e, In (snd iv, e) feed /\ is_silent e = false) \/
     snd iv = end_time).
Proof.
  induction feed as [|[timestamp energy] rest IH]; intros last end_time iv Hin.
  - unfold track_from, flush in Hin. cbn [run fst snd app] in Hin.
    destruct (negb (last =? -1)%float) eqn:Eo; cbn in Hin; [|contradiction].
    destruct Hin as [<-|[]]. cbn [fst snd]. split; [left|right]; auto.
  - rewrite track_from_cons, observe_cases in Hin.
    destruct (is_silent energy) eqn:Es, (is_open last) eqn:Eo;
      cbn [fst snd emitted app] in Hin.
    + destruct (IH _ _ _ Hin) as [[[_ Hl]|(e & He & Hse)] Hend].
      * split; [left; auto|].
        destruct Hend as [(e & He & Hse)|Hend]; [left|right; exact Hend].
        exists e. split; [right; exact He | exact Hse].
      * split; [right; exists e; split; [right; exact He | exact Hse]|].
        destruct Hend as [(e' & He' & Hse')|Hend]; [left|right; exact Hend].
        exists e'. split; [right; exact He' | exact Hse'].
    + destruct (IH _ _ _ Hin) as [[[_ Hl]|(e & He & Hse)] Hend].
      * split; [right; exists energy; split; [left; congruence | exact Es]|].
        destruct Hend as [(e & He & Hse)|Hend]; [left|right; exact Hend].
        exists e. split; [right; exact He | exact Hse].
      * split; [right; exists e; split; [right; exact He | exact Hse]|].
        destruct Hend as [(e' & He' & Hse')|Hend]; [left|right; exact Hend].
        exists e'. split; [right; exact He' | exact Hse'].
    + destruct Hin as [<-|Hin].
      * cbn [fst snd]. split; [left; auto|].
        left. exists energy. split; [left; reflexivity | exact Es].
      * destruct (IH _ _ _ Hin) as [[[Ho _]|(e & He & Hse)] Hend];
          [discriminate Ho|].
        split; [right; exists e; split; [right; exact He | exact Hse]|].
        destruct Hend as [(e' & He' & Hse')|Hend]; [left|right; exact Hend].
        exists e'. split; [right; exact He' | exact Hse'].
    + destruct (IH _ _ _ Hin) as [[[Ho _]|(e & He & Hse)] Hend];
        [congruence|].
      split; [right; exists e; split; [right; exact He | exact Hse]|].
      destruct Hend as [(e' & He' & Hse')|Hend]; [left|right; exact Hend].
      exists e'. split; [right; exact He' | exact Hse'].
Qed.

(** X16: whatever the timestamps are, every reported interval starts at the time
    of a silent frame and ends at the time of a frame that is not silent, or
    at the end time when it is the one written after the loop. *)
Theorem interval_endpoints (feed : list (float * float)) (end_time : float)
  (iv : interval) :
  In iv (track feed end_time) ->
  (exists e, In (fst iv, e) feed /\ is_silent e = true) /\
  ((exists e, In (snd iv, e) feed /\ is_silent e = false) \/
   snd iv = end_time).
Proof.
  intros Hin. rewrite track_is_track_from in Hin.
  destruct (track_from_endpoints feed _ _ _ Hin) as [[[Ho _]|Hstart] Hend].
  - discriminate Ho.
  - split; assumption.
Qed.

Lemma interval_endpoints_example :
  let feed := [(3, 0.9); (1, 0.1); (7, 0.2); (2, 0.5)]%float in
  In (1, 2)%float (track feed 9) /\
  (exists e, In (fst (1, 2)%float, e) feed /\ is_silent e = true) /\
  ((exists e, In (snd (1, 2)%float, e) feed /\ is_silent e = false) \/
   snd (1, 2)%float = 9%float).
Proof.
  intros feed.
  assert (H : In (1, 2)%float (track feed 9)) by (left; reflexivity).
  split; [exact H|].
  exact (interval_endpoints feed 9%float (1, 2)%float H).
Defined.

Lemma observations_None frame_rate fs frame :
  In frame fs ->
  observation frame_rate frame = None ->
  observations frame_rate fs = None.
Proof.
  induction fs as [|f rest IH]; intros Hin Hnone; [contradiction|].
  cbn [observations]. destruct Hin as [->|Hin].
  - rewrite Hnone. reflexivity.
  - destruct (observation frame_rate f); [|reflexivity].
    cbn [bind]. rewrite (IH Hin Hnone). reflexivity.
Qed.

(** X17: a frame that announces more samples than its first data plane holds as
    16-bit values makes the whole run undefined: [calculateEnergy] reads
    past the buffer. *)
Theorem main_reads_past_buffer (m : media) (frame : AVFrame) :
  In frame (frames m) ->
  Z.of_nat (List.length (data0 frame)) < nb_samples frame * nb_channels frame ->
  main m = None.
Proof.
  intros Hin Hlen. rewrite Report.main_report.
  rewrite (observations_None _ _ frame Hin); [reflexivity|].
  unfold observation, C.int_mul.
  destruct (C.in_int (nb_samples frame * nb_channels frame)); [|reflexivity].
  cbn [bind]. unfold calculateEnergy.
  rewrite Buffer.energy_loop_past by lia. reflexivity.
Qed.

Lemma main_reads_past_buffer_example :
  let frame := {| pts := 5; nb_samples := 2; nb_channels := 3;
                  data0 := [0; 0; 0; 0] |} in
  let m := {| time_base := {| num := 1; den := 1 |}; duration := 9;
              ticks_per_frame := 1; codec_time_base_den := 1;
              frames := [ {| pts := 4; nb_samples := 2; nb_channels := 1;
                             data0 := [0; 0] |}; frame ] |} in
  (In frame (frames m) /\
   Z.of_nat (List.length (data0 frame)) < nb_samples frame * nb_channels frame) /\
  main m = None.
Proof.
  intros frame m.
  assert (H1 : In frame (frames m)) by (right; left; reflexivity).
  assert (H2 : Z.of_nat (List.length (data0 frame))
               < nb_samples frame * nb_channels frame) by (cbn; lia).
  split; [split; assumption|].
  exact (main_reads_past_buffer m frame H1 H2).
Defined.

End Provenance.
